(** * react-native-healthkit: the JavaScript side of the HealthKit bridge

    A shallow embedding of [src/index.ios.tsx]: the functions that marshal
    between application code and the native module ([Native]) and the event
    emitter ([HealthkitEmitter]), with the properties of the specification
    proved about them.

    - JavaScript objects that cross the bridge are finite maps from property
      names to values ([gmap string JSValue]); object spread and computed
      keys are map insertions.
    - A [Date] holds a time value in milliseconds or is the Invalid Date; the
      ISO 8601 rendering and parsing of ECMAScript are written out.
    - The native module and the wall clock are parameters of the development;
      the calls made to the native module, the listeners registered with the
      emitter and the invocations of user callbacks are recorded in a
      [World] that every effectful function threads. *)

From stdpp Require Import gmap strings list fin_maps.
From Stdlib Require Import ZArith Ascii String Lia.

#[local] Set Warnings "-register-all".
#[local] Open Scope string_scope.
#[local] Open Scope list_scope.
#[local] Open Scope Z_scope.

(** ** ECMAScript dates *)

Module JSDate.

(** A Date object: its time value (milliseconds since the epoch, UTC), or
    the Invalid Date whose time value is NaN. *)
Inductive Date :=
| ValidDate (t : Z)
| InvalidDate.

#[global] Instance Date_eq_dec : EqDecision Date.
Proof. solve_decision. Defined.

Definition msPerDay : Z := 86400000.
Definition msPerHour : Z := 3600000.
Definition msPerMinute : Z := 60000.
Definition msPerSecond : Z := 1000.

(** The largest magnitude of a time value: 100,000,000 days. *)
Definition maxTime : Z := 8640000000000000.

Definition in_range (t : Z) : bool := (- maxTime <=? t) && (t <=? maxTime).

Definition TimeClip (t : Z) : Date :=
  if in_range t then ValidDate t else InvalidDate.

Definition Day (t : Z) : Z := t / msPerDay.
Definition TimeWithinDay (t : Z) : Z := t mod msPerDay.

Definition HourFromTime (t : Z) : Z := TimeWithinDay t / msPerHour.
Definition MinFromTime (t : Z) : Z := (TimeWithinDay t / msPerMinute) mod 60.
Definition SecFromTime (t : Z) : Z := (TimeWithinDay t / msPerSecond) mod 60.
Definition msFromTime (t : Z) : Z := TimeWithinDay t mod 1000.

(** Days since the epoch to a proleptic Gregorian date and back, by
    400-year eras counted from 1 March of year 0. *)
Definition daysPerEra : Z := 146097.
Definition epochShift : Z := 719468.

Definition year_of_era (doe : Z) : Z :=
  (doe - doe / 1460 + doe / 36524 - doe / 146096) / 365.

Definition day_of_year (doe yoe : Z) : Z :=
  doe - (365 * yoe + yoe / 4 - yoe / 100).

Definition civil_from_days (z : Z) : Z * Z * Z :=
  let era := (z + epochShift) / daysPerEra in
  let doe := (z + epochShift) mod daysPerEra in
  let yoe := year_of_era doe in
  let doy := day_of_year doe yoe in
  let mp := (5 * doy + 2) / 153 in
  let d := doy - (153 * mp + 2) / 5 + 1 in
  let m := if mp <? 10 then mp + 3 else mp - 9 in
  let y := yoe + era * 400 + (if m <=? 2 then 1 else 0) in
  (y, m, d).

Definition days_from_civil (y m d : Z) : Z :=
  let y' := y - (if m <=? 2 then 1 else 0) in
  let era := y' / 400 in
  let yoe := y' mod 400 in
  let mp := if 2 <? m then m - 3 else m + 9 in
  let doy := (153 * mp + 2) / 5 + d - 1 in
  let doe := yoe * 365 + yoe / 4 - yoe / 100 + doy in
  era * daysPerEra + doe - epochShift.

Definition YearFromTime (t : Z) : Z := (civil_from_days (Day t)).1.1.
Definition MonthFromTime (t : Z) : Z := (civil_from_days (Day t)).1.2.
Definition DateFromTime (t : Z) : Z := (civil_from_days (Day t)).2.

(** The day number of the first day of year [y], as ECMAScript defines
    it; [YearFromTime t] is the year [y] with
    [DayFromYear y <= Day t < DayFromYear (y + 1)]. *)
Definition DayFromYear (y : Z) : Z :=
  365 * (y - 1970) + (y - 1969) / 4 - (y - 1901) / 100 + (y - 1601) / 400.

Definition InLeapYear (y : Z) : bool :=
  (y mod 4 =? 0) && (negb (y mod 100 =? 0) || (y mod 400 =? 0)).

Definition DaysInMonth (y m : Z) : Z :=
  if m =? 2 then (if InLeapYear y then 29 else 28)
  else if (m =? 4) || (m =? 6) || (m =? 9) || (m =? 11) then 30
  else 31.

Definition MakeDate (day time : Z) : Z := day * msPerDay + time.
Definition MakeTime (h mi s ms : Z) : Z :=
  h * msPerHour + mi * msPerMinute + s * msPerSecond + ms.

(** *** Rendering: [Date.prototype.toISOString] *)

Definition digit (n : Z) : ascii := ascii_of_nat (48 + Z.to_nat (n mod 10)).

(** [pad k n]: the [k] low decimal digits of [n], most significant first. *)
Fixpoint pad (k : nat) (n : Z) : string :=
  match k with
  | O => ""
  | S k' => String (digit (n / 10 ^ Z.of_nat k')) (pad k' (n mod 10 ^ Z.of_nat k'))
  end.

(** Years 0 to 9999 take four digits, all others a sign and six digits. *)
Definition year_string (y : Z) : string :=
  if (0 <=? y) && (y <=? 9999) then pad 4 y
  else String (if y <? 0 then "-"%char else "+"%char) (pad 6 (Z.abs y)).

Definition iso_string (t : Z) : string :=
  year_string (YearFromTime t) +:+ "-" +:+ pad 2 (MonthFromTime t) +:+ "-" +:+
  pad 2 (DateFromTime t) +:+ "T" +:+ pad 2 (HourFromTime t) +:+ ":" +:+
  pad 2 (MinFromTime t) +:+ ":" +:+ pad 2 (SecFromTime t) +:+ "." +:+
  pad 3 (msFromTime t) +:+ "Z".

(** *** Parsing: the Date Time String Format *)

Definition digit_value (c : ascii) : option Z :=
  let n := Z.of_nat (nat_of_ascii c) in
  if (48 <=? n) && (n <=? 57) then Some (n - 48) else None.

(** Reads exactly [k] decimal digits from the front of [s]. *)
Fixpoint read_digits (k : nat) (acc : Z) (s : string) : option (Z * string) :=
  match k with
  | O => Some (acc, s)
  | S k' =>
      match s with
      | String c rest => d ← digit_value c; read_digits k' (10 * acc + d) rest
      | EmptyString => None
      end
  end.

Definition expect (c : ascii) (s : string) : option string :=
  match s with
  | String c' rest => if decide (c' = c) then Some rest else None
  | EmptyString => None
  end.

(** A four-digit year, or a sign and six digits; [-000000] is not a year. *)
Definition read_year (s : string) : option (Z * string) :=
  match s with
  | String c rest =>
      if decide (c = "+"%char) then read_digits 6 0 rest
      else if decide (c = "-"%char) then
        '(y, rest') ← read_digits 6 0 rest;
        if y =? 0 then None else Some (- y, rest')
      else read_digits 4 0 s
  | EmptyString => None
  end.

(** The complete UTC form [YYYY-MM-DDTHH:mm:ss.sssZ] with every element in
    bounds, which every engine reads the same way. [None]: the string is
    not of that form, or an element is out of bounds. *)
Definition parse_iso (s : string) : option Z :=
  '(y, s) ← read_year s;
  s ← expect "-" s;
  '(m, s) ← read_digits 2 0 s;
  s ← expect "-" s;
  '(d, s) ← read_digits 2 0 s;
  s ← expect "T" s;
  '(h, s) ← read_digits 2 0 s;
  s ← expect ":" s;
  '(mi, s) ← read_digits 2 0 s;
  s ← expect ":" s;
  '(sec, s) ← read_digits 2 0 s;
  s ← expect "." s;
  '(ms, s) ← read_digits 3 0 s;
  s ← expect "Z" s;
  if decide (s = "") then
    if (1 <=? m) && (m <=? 12) && (1 <=? d) && (d <=? DaysInMonth y m)
       && (h <=? 23) && (mi <=? 59) && (sec <=? 59)
    then Some (MakeDate (days_from_civil y m d) (MakeTime h mi sec ms))
    else None
  else None.

Section Engine.

(** What the JavaScript engine makes of a string that [parse_iso] does
    not read: the shorter forms, local times, the engine's own formats,
    days past the end of a month, or the Invalid Date for what it does not
    recognise. *)
Variable engine_parse : string → Date.

(** [Date.parse]: the time value of a string, NaN (the Invalid Date) for
    what is not recognised. It never throws. *)
Definition Date_parse (s : string) : Date :=
  match parse_iso s with
  | Some t => TimeClip t
  | None => engine_parse s
  end.

End Engine.

(** An engine that recognises no other format. *)
Definition strict_engine : string → Date := λ _, InvalidDate.

(** [Date.prototype.toISOString]: a [RangeError] on the Invalid Date
    ([None]). *)
Definition toISOString (d : Date) : option string :=
  match d with
  | ValidDate t => Some (iso_string t)
  | InvalidDate => None
  end.

End JSDate.

Export JSDate.

(** ** JavaScript values and objects *)

(** Numbers are carried as integers: the functions below never compute
    with a number, they hand it on. *)
Definition number : Type := Z.

Inductive JSValue :=
| VUndefined
| VNull
| VBool (b : bool)
| VNumber (n : number)
| VString (s : string)
| VDate (d : Date)
| VObject (o : gmap string JSValue).

(** A plain object: its own enumerable properties. *)
Abbreviation JSObject := (gmap string JSValue).

(** [ToBoolean], the test behind [||] and [? :]. *)
Definition truthy (v : JSValue) : bool :=
  match v with
  | VUndefined | VNull => false
  | VBool b => b
  | VNumber n => negb (n =? 0)
  | VString s => negb (String.eqb s "")
  | VDate _ | VObject _ => true
  end.

(** [o.k] on an object: [undefined] when [k] is not a property. *)
Definition prop (o : JSObject) (k : string) : JSValue :=
  default VUndefined (o !! k).

(** [v.k] on a value that is neither [undefined] nor [null]: primitives
    and dates have no property of the names read here. *)
Definition get (v : JSValue) (k : string) : JSValue :=
  match v with
  | VObject o => prop o k
  | _ => VUndefined
  end.

(** [{...a, ...b}] *)
Definition spread (a b : JSObject) : JSObject := b ∪ a.

Section DateConstructor.

Variable engine_parse : string → Date.

(** [new Date(value)] with one argument. A plain object is converted
    to the string ["[object Object]"] first. *)
Definition Date_new (value : JSValue) : Date :=
  match value with
  | VDate d => d
  | VString s => Date_parse engine_parse s
  | VUndefined => InvalidDate
  | VNull => TimeClip 0
  | VBool b => TimeClip (if b then 1 else 0)
  | VNumber n => TimeClip n
  | VObject _ => Date_parse engine_parse "[object Object]"
  end.

End DateConstructor.

(** ** Types of [./types] *)

(** Modelled from the spec: the identifier, unit and statistics-option
    types are declared in [./types]. They are tags that cross the bridge
    as strings, and the scenarios of section 8 write them as strings
    (['stepCount'], ["count"]). *)
Definition HKQuantityTypeIdentifier : Type := string.
Definition HKUnit : Type := string.
Definition HKStatisticsOptions : Type := string.

(** Modelled from the spec: [TypeToUnitMapping] and the permission types
    are declared in [./types]; section 6 has the preferred units as a map
    from identifier to unit, section 4.2 the permissions as a map from
    identifier to [true]. The raw samples and the raw statistics response
    ([QuantitySampleRaw], [StatsResponseRaw]) are plain objects,
    [JSObject]. *)
Abbreviation TypeToUnitMapping := (gmap string HKUnit).
Abbreviation Permissions := (gmap string bool).

(** Modelled from the spec: [HKAuthorizationRequestStatus] is declared in
    [./types]; section 6 gives its three values. *)
Inductive HKAuthorizationRequestStatus :=
| StatusUnknown
| StatusShouldRequest
| StatusAlreadyRequested.

(** ** Errors, completions and promises *)

Inductive JSError :=
| RangeError
| NativeError (reason : string).

(** How a promise settles. *)
Inductive Promise (A : Type) :=
| Fulfilled (a : A)
| Rejected (e : JSError).
Arguments Fulfilled {A} a.
Arguments Rejected {A} e.

(** How a synchronous call completes. *)
Inductive Completion (A : Type) :=
| Normal (a : A)
| Throw (e : JSError).
Arguments Normal {A} a.
Arguments Throw {A} e.

(** ** The native module and the state of the JavaScript side *)

(** A call that crossed the bridge, with the arguments it carried. A unit
    of [None] is [undefined]. *)
Inductive NativeCall :=
| CallGetDateOfBirth
| CallObserve (identifier : HKQuantityTypeIdentifier) (unit : option HKUnit)
| CallStopObserving (queryId : string)
| CallGetRequestStatusForAuthorization (write read : Permissions)
| CallRequestAuthorization (write read : Permissions)
| CallSave (identifier : HKQuantityTypeIdentifier) (unit : HKUnit)
    (value : number) (start end_ : string) (metadata : JSValue)
| CallGetLastSamples (identifier : HKQuantityTypeIdentifier)
    (limit : number) (unit : option HKUnit)
| CallGetSamplesBetween (identifier : HKQuantityTypeIdentifier)
    (unit : HKUnit) (from to : string)
| CallGetStatsBetween (identifier : HKQuantityTypeIdentifier)
    (unit : option HKUnit) (from to : string)
    (options : list HKStatisticsOptions)
| CallGetPreferredUnits (identifiers : list HKQuantityTypeIdentifier).

(** [ReactNativeHealthkitTypeNative]: what the native side answers to a
    call, given the calls made before it. *)
Module Native.
Record t := {
  getDateOfBirth : list NativeCall → Promise string;
  observe : list NativeCall → HKQuantityTypeIdentifier → option HKUnit →
            Promise string;
  stopObserving : list NativeCall → string → Promise bool;
  getRequestStatusForAuthorization :
    list NativeCall → Permissions → Permissions →
    Promise HKAuthorizationRequestStatus;
  requestAuthorization :
    list NativeCall → Permissions → Permissions → Promise bool;
  save : list NativeCall → HKQuantityTypeIdentifier → HKUnit → number →
         string → string → JSValue → Promise bool;
  getLastSamples : list NativeCall → HKQuantityTypeIdentifier → number →
                   option HKUnit → Promise (list JSObject);
  getSamplesBetween : list NativeCall → HKQuantityTypeIdentifier → HKUnit →
                      string → string → Promise (list JSObject);
  getStatsBetween : list NativeCall → HKQuantityTypeIdentifier →
                    option HKUnit → string → string →
                    list HKStatisticsOptions → Promise JSObject;
  getPreferredUnits : list NativeCall → list HKQuantityTypeIdentifier →
                      Promise TypeToUnitMapping;
}.
End Native.

(** A callback handed to [on]: the application's function, known by a
    name. Calling it is recorded, see [Invocation]. *)
Definition Callback : Type := nat.

Record Invocation := {
  invoked : Callback;
  invoked_with : list JSObject;
}.

(** The closure [listener] of [on]: it captures [identifier] and
    [callback]. *)
Record Listener := {
  listener_identifier : HKQuantityTypeIdentifier;
  listener_callback : Callback;
}.

(** An [EmitterSubscription] of the [NativeEventEmitter]. *)
Record Subscription := {
  sub_key : nat;
  sub_eventType : string;
  sub_listener : Listener;
}.

Record World := {
  calls : list NativeCall;              (* bridge calls made, oldest first *)
  subscriptions : list Subscription;    (* listeners of [HealthkitEmitter] *)
  next_key : nat;                       (* key of the next subscription *)
  invocations : list Invocation;        (* callback invocations, oldest first *)
  clock_reads : nat;                    (* how often the clock was read *)
}.

Definition with_calls (f : list NativeCall → list NativeCall) (w : World) :=
  {| calls := f (calls w); subscriptions := subscriptions w;
     next_key := next_key w; invocations := invocations w;
     clock_reads := clock_reads w |}.

Definition with_subscriptions
    (f : list Subscription → list Subscription) (w : World) :=
  {| calls := calls w; subscriptions := f (subscriptions w);
     next_key := next_key w; invocations := invocations w;
     clock_reads := clock_reads w |}.

Definition with_invocations
    (f : list Invocation → list Invocation) (w : World) :=
  {| calls := calls w; subscriptions := subscriptions w;
     next_key := next_key w; invocations := f (invocations w);
     clock_reads := clock_reads w |}.

Definition initial_world : World :=
  {| calls := []; subscriptions := []; next_key := 0%nat; invocations := [];
     clock_reads := 0%nat |}.

(** The body of an [async] function: it runs from a world to the settled
    state of its promise and the world it leaves. *)
Definition Async (A : Type) : Type := World → Promise A * World.

Definition resolve {A} (a : A) : Async A := λ w, (Fulfilled a, w).
Definition reject {A} (e : JSError) : Async A := λ w, (Rejected e, w).

(** [await]: a rejection ends the function with the same error. *)
Definition await {A B} (p : Async A) (k : A → Async B) : Async B :=
  λ w, match p w with
       | (Fulfilled a, w') => k a w'
       | (Rejected e, w') => (Rejected e, w')
       end.

(** [p.catch(handler)] *)
Definition catch {A} (p : Async A) (handler : JSError → Async A) : Async A :=
  λ w, match p w with
       | (Fulfilled a, w') => (Fulfilled a, w')
       | (Rejected e, w') => handler e w'
       end.

(** A call through the bridge: the native side answers from the calls it
    has seen, and the call is recorded. *)
Definition bridge {A} (call : NativeCall)
    (answer : list NativeCall → Promise A) : Async A :=
  λ w, (answer (calls w), with_calls (λ cs, cs ++ [call]) w).

Notation "'let*' x ':=' p 'in' k" := (await p (λ x, k))
  (at level 10, x name, p at level 100, k at level 200, only parsing).

(** A synchronous effect inside an [async] body. *)
Definition effect {A} (f : World → A * World) : Async A :=
  λ w, let '(a, w') := f w in (Fulfilled a, w').

(** A synchronous function: it completes normally or throws. *)
Definition Sync (A : Type) : Type := World → Completion A * World.

(** [return p] in a function that is not [async]: the caller receives
    the promise itself. *)
Definition returns {A} (p : Async A) : Sync (Promise A) :=
  λ w, let '(settled, w') := p w in (Normal settled, w').

(** [a || b] where [a] is an object or [undefined]: objects are truthy. *)
Definition or_else {A} (a b : option A) : option A :=
  match a with
  | Some _ => a
  | None => b
  end.

(** ** The event emitter *)

(** The payload of an [onQueryUpdated] event. *)
Record QueryUpdated := {
  samples : list JSObject;
  typeIdentifier : HKQuantityTypeIdentifier;
}.

(** [emitter.addListener(eventType, listener)]: the subscription gets the
    next key. *)
Definition addListener (eventType : string) (listener : Listener)
    : World → nat * World :=
  λ w,
    let s := {| sub_key := next_key w; sub_eventType := eventType;
                sub_listener := listener |} in
    (next_key w,
     {| calls := calls w; subscriptions := subscriptions w ++ [s];
        next_key := S (next_key w); invocations := invocations w;
        clock_reads := clock_reads w |}).

(** [subscription.remove()]: the emitter forgets the subscription of
    that key; nothing happens when it is not registered. *)
Definition remove (key : nat) : World → World :=
  with_subscriptions (filter (λ s, sub_key s ≠ key)).

(** What a function returned by [on] captures: [subscription] and
    [queryId]. *)
Record Unsubscribe := {
  unsub_subscription : nat;
  unsub_queryId : string;
}.

(** The options of [save]. *)
Record SaveOptions := {
  start : option Date;
  end_ : option Date;
  metadata : option JSValue;
}.

(** ** [index.ios.tsx] *)

Section Healthkit.

Variable native : Native.t.
Variable engine_parse : string → Date.

(** The time value the clock shows when it is read for the [n]th
    time. *)
Variable clock : nat → Z.

(** [new Date()] *)
Definition Date_now : World → Date * World :=
  λ w, (TimeClip (clock (clock_reads w)),
        {| calls := calls w; subscriptions := subscriptions w;
           next_key := next_key w; invocations := invocations w;
           clock_reads := S (clock_reads w) |}).

(** [d || new Date()] *)
Definition or_now (d : option Date) : World → Date * World :=
  match d with
  | Some d => λ w, (d, w)
  | None => Date_now
  end.

(** *** The endpoints of [Native] *)

Definition Native_getDateOfBirth : Async string :=
  bridge CallGetDateOfBirth (Native.getDateOfBirth native).

Definition Native_observe identifier unit : Async string :=
  bridge (CallObserve identifier unit)
    (λ cs, Native.observe native cs identifier unit).

Definition Native_stopObserving queryId : Async bool :=
  bridge (CallStopObserving queryId)
    (λ cs, Native.stopObserving native cs queryId).

Definition Native_getRequestStatusForAuthorization write read
    : Async HKAuthorizationRequestStatus :=
  bridge (CallGetRequestStatusForAuthorization write read)
    (λ cs, Native.getRequestStatusForAuthorization native cs write read).

Definition Native_requestAuthorization write read : Async bool :=
  bridge (CallRequestAuthorization write read)
    (λ cs, Native.requestAuthorization native cs write read).

Definition Native_save identifier unit value start end_ metadata
    : Async bool :=
  bridge (CallSave identifier unit value start end_ metadata)
    (λ cs, Native.save native cs identifier unit value start end_ metadata).

Definition Native_getLastSamples identifier limit unit
    : Async (list JSObject) :=
  bridge (CallGetLastSamples identifier limit unit)
    (λ cs, Native.getLastSamples native cs identifier limit unit).

Definition Native_getSamplesBetween identifier unit from to
    : Async (list JSObject) :=
  bridge (CallGetSamplesBetween identifier unit from to)
    (λ cs, Native.getSamplesBetween native cs identifier unit from to).

Definition Native_getStatsBetween identifier unit from to options
    : Async JSObject :=
  bridge (CallGetStatsBetween identifier unit from to options)
    (λ cs, Native.getStatsBetween native cs identifier unit from to options).

Definition Native_getPreferredUnits identifiers : Async TypeToUnitMapping :=
  bridge (CallGetPreferredUnits identifiers)
    (λ cs, Native.getPreferredUnits native cs identifiers).

(** [d.toISOString()] inside an [async] body: the [RangeError] rejects
    the promise. *)
Definition toISOString_async (d : Date) : Async string :=
  match toISOString d with
  | Some s => resolve s
  | None => reject RangeError
  end.

(** *** The functions *)

Definition getPreferredUnit (type : HKQuantityTypeIdentifier)
    : Async (option HKUnit) :=
  let* unit := Native_getPreferredUnits [type] in
  resolve (unit !! type).

(** [unit || (await p)]: [p] runs when [unit] is falsy, that is
    [undefined] or the empty string. *)
Definition or_await (unit : option HKUnit) (p : Async (option HKUnit))
    : Async (option HKUnit) :=
  match unit with
  | Some u => if truthy (VString u) then resolve (Some u) else p
  | None => p
  end.

Definition deserializeSample (sample : JSObject) : JSObject :=
  <["endDate" := VDate (Date_new engine_parse (prop sample "endDate"))]>
    (<["startDate" :=
         VDate (Date_new engine_parse (prop sample "startDate"))]> sample).

(** [limit] of [None]: the argument is omitted and defaults to 1. *)
Definition getLastSamples (identifier : HKQuantityTypeIdentifier)
    (limit : option number) (unit : option HKUnit) : Async (list JSObject) :=
  let limit := default 1 limit in
  let* actualUnit := or_await unit (getPreferredUnit identifier) in
  let* samples := Native_getLastSamples identifier limit actualUnit in
  resolve (deserializeSample <$> samples).

(** The body of [listener] in [on]. *)
Definition call_listener (l : Listener) (ev : QueryUpdated) : World → World :=
  if decide (typeIdentifier ev = listener_identifier l) then
    with_invocations
      (λ done, done ++ [{| invoked := listener_callback l;
                           invoked_with := deserializeSample <$> samples ev |}])
  else λ w, w.

(** An event of [eventType] arrives: the emitter calls the listeners
    subscribed to it, oldest first. *)
Definition emit (eventType : string) (ev : QueryUpdated) (w : World) : World :=
  foldl (λ w s, if decide (sub_eventType s = eventType)
                then call_listener (sub_listener s) ev w else w)
    w (subscriptions w).

Definition on (identifier : HKQuantityTypeIdentifier) (callback : Callback)
    (unit : option HKUnit) : Async Unsubscribe :=
  let* actualUnit := or_await unit (getPreferredUnit identifier) in
  let listener := {| listener_identifier := identifier;
                     listener_callback := callback |} in
  let* subscription := effect (addListener "onQueryUpdated" listener) in
  let* queryId :=
    catch (Native_observe identifier actualUnit)
      (λ error, let* _ := effect (λ w, (tt, remove subscription w)) in
                reject error) in
  resolve {| unsub_subscription := subscription; unsub_queryId := queryId |}.

(** Calling the function that [on] returned. *)
Definition unsubscribe (u : Unsubscribe) : Sync (Promise bool) :=
  λ w, returns (Native_stopObserving (unsub_queryId u))
         (remove (unsub_subscription u) w).

(** [None]: [undefined], the array had no element. *)
Definition getLastSample (identifier : HKQuantityTypeIdentifier)
    (unit : option HKUnit) : Async (option JSObject) :=
  let* samples := getLastSamples identifier (Some 1) unit in
  resolve (samples !! 0%nat).

Definition save (identifier : HKQuantityTypeIdentifier) (unit : HKUnit)
    (value : number) (options : option SaveOptions) : Sync (Promise bool) :=
  λ w,
    let '(start', w) :=
      or_now (or_else (options ≫= start) (options ≫= end_)) w in
    let '(end', w) :=
      or_now (or_else (options ≫= end_) (options ≫= start)) w in
    let given := default VUndefined (options ≫= metadata) in
    let metadata' := if truthy given then given else VObject ∅ in
    match toISOString start' with
    | None => (Throw RangeError, w)
    | Some startISO =>
        match toISOString end' with
        | None => (Throw RangeError, w)
        | Some endISO =>
            returns
              (Native_save identifier unit value startISO endISO metadata') w
        end
    end.

Definition getStatsBetween (identifier : HKQuantityTypeIdentifier)
    (options : list HKStatisticsOptions) (from : Date) (to : option Date)
    (unit : option HKUnit) : Async JSObject :=
  let* actualUnit := or_await unit (getPreferredUnit identifier) in
  let* toDate := effect (or_now to) in
  let* fromISO := toISOString_async from in
  let* toISO := toISOString_async toDate in
  let* raw := Native_getStatsBetween identifier actualUnit fromISO toISO
                options in
  let mostRecentQuantityDateInterval :=
    prop raw "mostRecentQuantityDateInterval" in
  let rawResponse := delete "mostRecentQuantityDateInterval" raw in
  let response :=
    spread rawResponse
      (if truthy mostRecentQuantityDateInterval then
         {[ "mostRecentQuantityDateInterval" :=
              VObject
                (<["to" := VDate (Date_new engine_parse
                                    (get mostRecentQuantityDateInterval "to"))]>
                   (<["from" := VDate (Date_new engine_parse
                                    (get mostRecentQuantityDateInterval "from"))]>
                      ∅)) ]}
       else ∅) in
  resolve response.

(** [write] of [None]: the argument is omitted and defaults to [[]]. *)
Definition requestAuthorization (read : list string)
    (write : option (list string)) : Sync (Promise bool) :=
  let write := default [] write in
  let readPermissions :=
    foldl (λ (obj : Permissions) cur, <[cur := true]> obj) ∅ read in
  let writePermissions :=
    foldl (λ (obj : Permissions) cur, <[cur := true]> obj) ∅ write in
  returns (Native_requestAuthorization writePermissions readPermissions).

Definition getDateOfBirth : Async Date :=
  let* dateOfBirth := Native_getDateOfBirth in
  resolve (Date_new engine_parse (VString dateOfBirth)).

Definition getSamplesBetween (identifier : HKQuantityTypeIdentifier)
    (unit : HKUnit) (from : Date) (to : option Date) : Async (list JSObject) :=
  let* to := effect (or_now to) in
  let* fromISO := toISOString_async from in
  let* toISO := toISOString_async to in
  let* samples := Native_getSamplesBetween identifier unit fromISO toISO in
  resolve (deserializeSample <$> samples).

Definition getRequestStatusForAuthorization (read : list string)
    (write : option (list string))
    : Sync (Promise HKAuthorizationRequestStatus) :=
  let write := default [] write in
  let readPermissions :=
    foldl (λ (obj : Permissions) cur, <[cur := true]> obj) ∅ read in
  let writePermissions :=
    foldl (λ (obj : Permissions) cur, <[cur := true]> obj) ∅ write in
  returns
    (Native_getRequestStatusForAuthorization writePermissions readPermissions).

End Healthkit.

(** ** Notions of the specification *)

(** The [flatten] of the specification (section 4.2), to compare the
    reduction of [requestAuthorization] with: the identifiers as a set,
    each mapped to [true]. *)
Definition presence_map (identifiers : list string) : Permissions :=
  gset_to_gmap true (list_to_set identifiers).

(** Modelled from the spec: the source has no serializer of samples. This
    is the [serialize] of section 8, the inverse of [deserializeSample]:
    the two dates of a sample rendered as ISO 8601 strings, the way [save]
    renders dates. [None]: a date is missing or is the Invalid Date. *)
Definition serializeSample (sample : JSObject) : option JSObject :=
  match prop sample "startDate", prop sample "endDate" with
  | VDate startDate, VDate endDate =>
      startISO ← toISOString startDate;
      endISO ← toISOString endDate;
      Some (<["endDate" := VString endISO]>
              (<["startDate" := VString startISO]> sample))
  | _, _ => None
  end.

(** A date that the ISO 8601 rendering with milliseconds gives back. *)
Definition round_trips (engine_parse : string → Date) (d : Date) : Prop :=
  ∃ s, toISOString d = Some s ∧ Date_parse engine_parse s = d.

(** Every registered subscription has a key below the next one. *)
Definition fresh_keys (w : World) : Prop :=
  Forall (λ s, (sub_key s < next_key w)%nat) (subscriptions w).

(** What an event of [eventType] makes one subscription do. *)
Definition invocations_of (engine_parse : string → Date) (eventType : string)
    (ev : QueryUpdated) (s : Subscription) : list Invocation :=
  if decide (sub_eventType s = eventType) then
    if decide (typeIdentifier ev = listener_identifier (sub_listener s)) then
      [{| invoked := listener_callback (sub_listener s);
          invoked_with := deserializeSample engine_parse <$> samples ev |}]
    else []
  else [].

(** The statistics call, made when both dates can be rendered. *)
Definition stats_call (identifier : HKQuantityTypeIdentifier)
    (unit : option HKUnit) (from toDate : Date)
    (options : list HKStatisticsOptions) : list NativeCall :=
  match toISOString from, toISOString toDate with
  | Some fromISO, Some toISO =>
      [CallGetStatsBetween identifier unit fromISO toISO options]
  | _, _ => []
  end.

(** The calls of an operation that asks for the preferred unit first:
    one [getPreferredUnits] call for the identifier, then, when it is
    answered, the calls [next] makes with the entry of the identifier. *)
Definition preferred_then (reply : Promise TypeToUnitMapping)
    (identifier : HKQuantityTypeIdentifier)
    (next : option HKUnit → list NativeCall) : list NativeCall :=
  CallGetPreferredUnits [identifier] ::
  match reply with
  | Fulfilled units => next (units !! identifier)
  | Rejected _ => []
  end.

(** ** A device to run the functions on *)

Module Demo.

Definition stepCount : HKQuantityTypeIdentifier :=
  "HKQuantityTypeIdentifierStepCount".
Definition heartRate : HKQuantityTypeIdentifier :=
  "HKQuantityTypeIdentifierHeartRate".

Definition raw_sample : JSObject :=
  <["uuid" := VString "5D5F2B5C"]>
    (<["quantity" := VNumber 1200]>
       (<["startDate" := VString "2024-01-01T00:00:00.000Z"]>
          (<["endDate" := VString "2024-01-02T00:00:00.000Z"]> ∅))).

(** A sample whose start is no date. *)
Definition odd_sample : JSObject :=
  <["startDate" := VString "not a date"]> raw_sample.

Definition sample : JSObject :=
  <["uuid" := VString "5D5F2B5C"]>
    (<["quantity" := VNumber 1200]>
       (<["startDate" := VDate (ValidDate 1704067200000)]>
          (<["endDate" := VDate (ValidDate 1704153600000)]> ∅))).

Definition raw_interval : JSObject :=
  <["from" := VString "2024-01-01T00:00:00.000Z"]>
    (<["to" := VString "2024-01-02T00:00:00.000Z"]> ∅).

Definition raw_stats : JSObject :=
  <["sumQuantity" := VNumber 1200]>
    (<["mostRecentQuantityDateInterval" := VObject raw_interval]> ∅).

Definition was_stopped (queryId : string) (cs : list NativeCall) : bool :=
  existsb (λ c, match c with
                | CallStopObserving q => String.eqb q queryId
                | _ => false
                end) cs.

(** The native side: every quantity is preferred in ["count"], an
    observer query stops once. *)
Definition native : Native.t :=
  {| Native.getDateOfBirth := λ _, Fulfilled "1990-05-17T00:00:00.000Z";
     Native.observe := λ _ _ _, Fulfilled "query-1";
     Native.stopObserving :=
       λ cs queryId, Fulfilled (negb (was_stopped queryId cs));
     Native.getRequestStatusForAuthorization :=
       λ _ _ _, Fulfilled StatusShouldRequest;
     Native.requestAuthorization := λ _ _ _, Fulfilled true;
     Native.save := λ _ _ _ _ _ _ _, Fulfilled true;
     Native.getLastSamples := λ _ _ _ _, Fulfilled [odd_sample];
     Native.getSamplesBetween := λ _ _ _ _ _, Fulfilled [raw_sample];
     Native.getStatsBetween := λ _ _ _ _ _ _, Fulfilled raw_stats;
     Native.getPreferredUnits :=
       λ _ identifiers,
         Fulfilled (list_to_map ((λ i, (i, "count")) <$> identifiers)) |}.

(** The same device when observer queries are refused and it holds no
    sample. *)
Definition refusing : Native.t :=
  {| Native.getDateOfBirth := Native.getDateOfBirth native;
     Native.observe := λ _ _ _, Rejected (NativeError "not authorized");
     Native.stopObserving := Native.stopObserving native;
     Native.getRequestStatusForAuthorization :=
       Native.getRequestStatusForAuthorization native;
     Native.requestAuthorization := Native.requestAuthorization native;
     Native.save := Native.save native;
     Native.getLastSamples := λ _ _ _ _, Fulfilled [];
     Native.getSamplesBetween := Native.getSamplesBetween native;
     Native.getStatsBetween := Native.getStatsBetween native;
     Native.getPreferredUnits := Native.getPreferredUnits native |}.

(** 1 January 2024, one second later at every reading. *)
Definition clock : nat → Z := λ n, 1704067200000 + 1000 * Z.of_nat n.

(** An application callback. *)
Definition callback : Callback := 7%nat.

(** A world in which another listener is registered already. *)
Definition busy_world : World :=
  {| calls := [];
     subscriptions :=
       [{| sub_key := 0%nat; sub_eventType := "onQueryUpdated";
           sub_listener := {| listener_identifier := heartRate;
                              listener_callback := 3%nat |} |}];
     next_key := 1%nat; invocations := []; clock_reads := 0%nat |}.

Definition update : QueryUpdated :=
  {| samples := [raw_sample]; typeIdentifier := stepCount |}.

Definition other_update : QueryUpdated :=
  {| samples := [raw_sample]; typeIdentifier := heartRate |}.

End Demo.

(** A Date as JavaScript makes them: the time value is in range. *)
Definition well_formed (d : Date) : Prop :=
  match d with
  | ValidDate t => in_range t = true
  | InvalidDate => True
  end.

(** ** A device with faults *)

Module Faulty.

(** The native side when the health store is unavailable: every call is
    rejected. *)
Definition unavailable : JSError := NativeError "unavailable".

Definition native : Native.t :=
  {| Native.getDateOfBirth := λ _, Rejected unavailable;
     Native.observe := λ _ _ _, Rejected unavailable;
     Native.stopObserving := λ _ _, Rejected unavailable;
     Native.getRequestStatusForAuthorization := λ _ _ _, Rejected unavailable;
     Native.requestAuthorization := λ _ _ _, Rejected unavailable;
     Native.save := λ _ _ _ _ _ _ _, Rejected unavailable;
     Native.getLastSamples := λ _ _ _ _, Rejected unavailable;
     Native.getSamplesBetween := λ _ _ _ _ _, Rejected unavailable;
     Native.getStatsBetween := λ _ _ _ _ _ _, Rejected unavailable;
     Native.getPreferredUnits := λ _ _, Rejected unavailable |}.

(** Statistics whose interval is [null]. *)
Definition null_stats : JSObject :=
  <["sumQuantity" := VNumber 1200]>
    (<["mostRecentQuantityDateInterval" := VNull]> ∅).

(** The demo device when it answers with odd data: a birth date in
    words, statistics with a [null] interval. *)
Definition odd : Native.t :=
  {| Native.getDateOfBirth := λ _, Fulfilled "17 May 1990";
     Native.observe := Native.observe Demo.native;
     Native.stopObserving := Native.stopObserving Demo.native;
     Native.getRequestStatusForAuthorization :=
       Native.getRequestStatusForAuthorization Demo.native;
     Native.requestAuthorization := Native.requestAuthorization Demo.native;
     Native.save := Native.save Demo.native;
     Native.getLastSamples := Native.getLastSamples Demo.native;
     Native.getSamplesBetween := Native.getSamplesBetween Demo.native;
     Native.getStatsBetween := λ _ _ _ _ _ _, Fulfilled null_stats;
     Native.getPreferredUnits := Native.getPreferredUnits Demo.native |}.

End Faulty.

(** * Properties *)

(** ** Dates: a rendered time value is read back *)

Module JSDateFacts.

Lemma digit_value_digit n : 0 <= n < 10 → digit_value (digit n) = Some n.
Proof.
  intros Hn.
  assert (n = 0 ∨ n = 1 ∨ n = 2 ∨ n = 3 ∨ n = 4 ∨ n = 5 ∨ n = 6 ∨ n = 7
          ∨ n = 8 ∨ n = 9) as Hcases by lia.
  repeat (destruct Hcases as [-> | Hcases]; [reflexivity |]).
  subst n. reflexivity.
Qed.

Lemma digit_not_sign n : digit n ≠ "+"%char ∧ digit n ≠ "-"%char.
Proof.
  unfold digit.
  assert (0 <= n mod 10 < 10) as Hn by (apply Z.mod_pos_bound; lia).
  assert (n mod 10 = 0 ∨ n mod 10 = 1 ∨ n mod 10 = 2 ∨ n mod 10 = 3
          ∨ n mod 10 = 4 ∨ n mod 10 = 5 ∨ n mod 10 = 6 ∨ n mod 10 = 7
          ∨ n mod 10 = 8 ∨ n mod 10 = 9) as Hcases by lia.
  repeat (destruct Hcases as [-> | Hcases]; [split; discriminate |]).
  rewrite Hcases. split; discriminate.
Qed.

Lemma append_cons c s r : String c s +:+ r = String c (s +:+ r).
Proof. reflexivity. Qed.

Lemma append_empty s : "" +:+ s = s.
Proof. reflexivity. Qed.

Lemma read_digits_pad k : ∀ n acc rest,
  0 <= n < 10 ^ Z.of_nat k →
  read_digits k acc (pad k n +:+ rest) = Some (acc * 10 ^ Z.of_nat k + n, rest).
Proof.
  induction k as [| k IH]; intros n acc rest Hn.
  - simpl in *. f_equal; f_equal; lia.
  - rewrite Nat2Z.inj_succ, Z.pow_succ_r in Hn by lia.
    cbn [pad]. rewrite append_cons. cbn [read_digits].
    set (p := 10 ^ Z.of_nat k) in *.
    assert (0 < p) by (apply Z.pow_pos_nonneg; lia).
    assert (0 <= n / p < 10) as Hq.
    { split; [apply Z.div_pos; lia | apply Z.div_lt_upper_bound; lia]. }
    rewrite digit_value_digit by done. cbn [mbind option_bind].
    rewrite IH by (apply Z.mod_pos_bound; lia).
    f_equal; f_equal.
    rewrite Nat2Z.inj_succ, Z.pow_succ_r by lia. fold p.
    pose proof (Z.div_mod n p ltac:(lia)). lia.
Qed.

Lemma expect_cons c s : expect c (String c s) = Some s.
Proof. unfold expect. by rewrite decide_True. Qed.

(** *** The calendar *)

Lemma year_of_era_bounds doe :
  0 <= doe < daysPerEra →
  0 <= year_of_era doe <= 399 ∧
  0 <= day_of_year doe (year_of_era doe) <= 365.
Proof.
  unfold daysPerEra, year_of_era, day_of_year. intros Hdoe.
  Z.div_mod_to_equations. lia.
Qed.

(** Day 365 of a year that starts in March is 29 February of the next
    calendar year, a leap year. *)
Lemma leap_day_in_leap_year doe :
  0 <= doe < daysPerEra →
  day_of_year doe (year_of_era doe) = 365 →
  InLeapYear (year_of_era doe + 1) = true.
Proof.
  unfold daysPerEra, year_of_era, day_of_year, InLeapYear. intros Hdoe Hd.
  apply andb_true_iff. rewrite orb_true_iff, negb_true_iff, !Z.eqb_eq, Z.eqb_neq.
  Z.div_mod_to_equations. lia.
Qed.

Lemma InLeapYear_era y era : InLeapYear (y + era * 400) = InLeapYear y.
Proof.
  unfold InLeapYear.
  replace ((y + era * 400) mod 4) with (y mod 4)
    by (Z.div_mod_to_equations; lia).
  replace ((y + era * 400) mod 100) with (y mod 100)
    by (Z.div_mod_to_equations; lia).
  replace ((y + era * 400) mod 400) with (y mod 400)
    by (Z.div_mod_to_equations; lia).
  reflexivity.
Qed.

Ltac era_of z :=
  set (era := (z + epochShift) / daysPerEra);
  set (doe := (z + epochShift) mod daysPerEra);
  assert (0 <= doe < daysPerEra) as Hdoe
    by (apply Z.mod_pos_bound; reflexivity).

Ltac split_eqb :=
  repeat match goal with
         | |- context [?a =? ?b] => destruct (Z.eqb_spec a b)
         end; cbn [orb].

(** [civil_from_days] gives a date of the calendar. *)
Lemma civil_from_days_valid z y m d :
  civil_from_days z = (y, m, d) →
  1 <= m <= 12 ∧ 1 <= d <= DaysInMonth y m.
Proof.
  unfold civil_from_days. era_of z.
  pose proof (year_of_era_bounds doe Hdoe) as [Hyoe Hdoy].
  pose proof (leap_day_in_leap_year doe Hdoe) as Hleap.
  set (yoe := year_of_era doe) in *.
  set (doy := day_of_year doe yoe) in *.
  intros [= <- <- <-].
  set (mp := (5 * doy + 2) / 153).
  assert (0 <= mp <= 11) as Hmp by (subst mp; Z.div_mod_to_equations; lia).
  destruct (Z.ltb_spec mp 10) as [Hlt | Hge].
  - destruct (Z.leb_spec (mp + 3) 2); [lia |].
    split; [lia |]. unfold DaysInMonth.
    split_eqb; subst mp; Z.div_mod_to_equations; lia.
  - destruct (Z.leb_spec (mp - 9) 2); [| lia].
    split; [lia |]. unfold DaysInMonth.
    destruct (Z.eqb_spec (mp - 9) 2) as [Hfeb | Hjan].
    + replace (yoe + era * 400 + 1) with (yoe + 1 + era * 400) by lia.
      rewrite InLeapYear_era.
      destruct (decide (doy = 365)) as [Hd | Hd].
      * rewrite Hleap by done. subst mp. Z.div_mod_to_equations. lia.
      * destruct (InLeapYear (yoe + 1)); subst mp; Z.div_mod_to_equations; lia.
    + split_eqb; subst mp; Z.div_mod_to_equations; lia.
Qed.

Lemma days_from_civil_from_days z y m d :
  civil_from_days z = (y, m, d) → days_from_civil y m d = z.
Proof.
  unfold civil_from_days, days_from_civil. era_of z.
  pose proof (year_of_era_bounds doe Hdoe) as [Hyoe Hdoy].
  set (yoe := year_of_era doe) in *.
  set (doy := day_of_year doe yoe) in *.
  intros [= <- <- <-].
  set (mp := (5 * doy + 2) / 153).
  assert (0 <= mp <= 11) as Hmp by (subst mp; Z.div_mod_to_equations; lia).
  set (m := if mp <? 10 then mp + 3 else mp - 9).
  set (c := if m <=? 2 then 1 else 0).
  replace (yoe + era * 400 + c - c) with (yoe + era * 400) by lia.
  replace ((yoe + era * 400) / 400) with era by (Z.div_mod_to_equations; lia).
  replace ((yoe + era * 400) mod 400) with yoe by (Z.div_mod_to_equations; lia).
  replace (if 2 <? m then m - 3 else m + 9) with mp.
  2:{ subst m. destruct (Z.ltb_spec mp 10).
      - destruct (Z.ltb_spec 2 (mp + 3)); lia.
      - destruct (Z.ltb_spec 2 (mp - 9)); lia. }
  assert (doe = yoe * 365 + yoe / 4 - yoe / 100 + doy) as Hdoe'
    by (subst doy; unfold day_of_year; lia).
  pose proof (Z.div_mod (z + epochShift) daysPerEra ltac:(done)) as Hz.
  fold era doe in Hz. lia.
Qed.

(** The year is the one of ECMAScript's [YearFromTime]. *)
Lemma civil_from_days_year z y m d :
  civil_from_days z = (y, m, d) →
  DayFromYear y <= z < DayFromYear (y + 1).
Proof.
  intros Hcivil.
  pose proof (civil_from_days_valid _ _ _ _ Hcivil) as [Hm Hd].
  pose proof (days_from_civil_from_days _ _ _ _ Hcivil) as Hdays.
  clear Hcivil. subst z.
  unfold days_from_civil, DayFromYear, daysPerEra, epochShift.
  unfold DaysInMonth, InLeapYear in Hd.
  assert (m = 1 ∨ m = 2 ∨ m = 3 ∨ m = 4 ∨ m = 5 ∨ m = 6 ∨ m = 7 ∨ m = 8
          ∨ m = 9 ∨ m = 10 ∨ m = 11 ∨ m = 12) as Hcases by lia.
  repeat (destruct Hcases as [-> | Hcases]); try subst m; cbn in Hd |- *.
  all: repeat match type of Hd with
              | context [?a =? ?b] => destruct (Z.eqb_spec a b)
              end; cbn in Hd.
  all: Z.div_mod_to_equations; lia.
Qed.

Lemma year_in_range t y m d :
  in_range t = true → civil_from_days (Day t) = (y, m, d) →
  -999999 <= y <= 999999.
Proof.
  unfold in_range, maxTime, Day, msPerDay, civil_from_days. intros Ht.
  apply andb_true_iff in Ht as [Hlo%Z.leb_le Hhi%Z.leb_le].
  set (z := t / 86400000).
  assert (-100000000 <= z <= 100000000) as Hz
    by (subst z; Z.div_mod_to_equations; lia).
  era_of z.
  pose proof (year_of_era_bounds doe Hdoe) as [Hyoe _].
  assert (-1000 <= era <= 1000) as Hera
    by (subst era; unfold epochShift, daysPerEra; Z.div_mod_to_equations; lia).
  intros [= <- _ _].
  destruct (_ <=? 2); lia.
Qed.

(** *** Strings *)

Lemma read_year_year_string y rest :
  -999999 <= y <= 999999 →
  read_year (year_string y +:+ rest) = Some (y, rest).
Proof.
  intros Hy. unfold year_string.
  destruct (Z.leb_spec 0 y) as [Hpos | Hneg]; cbn [andb].
  - destruct (Z.leb_spec y 9999) as [Hsmall | Hbig].
    + pose proof (read_digits_pad 4 y 0 rest ltac:(simpl; lia)) as Hread.
      cbn [pad] in *. rewrite append_cons in *.
      unfold read_year.
      destruct (digit_not_sign (y / 10 ^ Z.of_nat 3)) as [Hplus Hminus].
      rewrite !decide_False by done. rewrite Hread. f_equal; f_equal; lia.
    + destruct (Z.ltb_spec y 0); [lia |].
      rewrite append_cons.
      unfold read_year. rewrite decide_True by done.
      rewrite read_digits_pad by (simpl; lia). f_equal; f_equal; lia.
  - destruct (Z.ltb_spec y 0); [| lia].
    rewrite append_cons.
    unfold read_year. rewrite decide_False by done. rewrite decide_True by done.
    rewrite read_digits_pad by (simpl; lia). cbn [mbind option_bind].
    destruct (Z.eqb_spec (0 * 10 ^ Z.of_nat 6 + Z.abs y) 0); [lia |].
    f_equal; f_equal; lia.
Qed.

(** One separator and one field of digits. *)
Ltac read_field :=
  rewrite ?append_cons, ?append_empty, expect_cons; cbn [mbind option_bind];
  rewrite ?read_digits_pad by (simpl; lia); cbn [mbind option_bind].

(** Every time value in range is read back from its ISO rendering. *)
Lemma parse_iso_iso_string t :
  in_range t = true → parse_iso (iso_string t) = Some t.
Proof.
  intros Ht. unfold iso_string, YearFromTime, MonthFromTime, DateFromTime.
  destruct (civil_from_days (Day t)) as [[y m] d] eqn:Hcivil. cbn [fst snd].
  pose proof (year_in_range _ _ _ _ Ht Hcivil) as Hy.
  pose proof (civil_from_days_valid _ _ _ _ Hcivil) as [Hm Hd].
  pose proof (days_from_civil_from_days _ _ _ _ Hcivil) as Hdays.
  assert (d <= 31) as Hd31.
  { unfold DaysInMonth in Hd.
    repeat match type of Hd with
           | context [if ?b then _ else _] => destruct b
           end; lia. }
  assert (0 <= HourFromTime t <= 23 ∧ 0 <= MinFromTime t <= 59 ∧
          0 <= SecFromTime t <= 59 ∧ 0 <= msFromTime t <= 999 ∧
          MakeTime (HourFromTime t) (MinFromTime t) (SecFromTime t)
            (msFromTime t) = TimeWithinDay t) as (Hh & Hmi & Hs & Hms & Htime).
  { unfold HourFromTime, MinFromTime, SecFromTime, msFromTime, MakeTime,
      TimeWithinDay, msPerDay, msPerHour, msPerMinute, msPerSecond.
    Z.div_mod_to_equations. lia. }
  unfold parse_iso.
  rewrite read_year_year_string by done. cbn [mbind option_bind].
  do 7 read_field.
  rewrite decide_True by done.
  rewrite !Z.mul_0_l, !Z.add_0_l.
  repeat match goal with
         | |- context [?a <=? ?b] => destruct (Z.leb_spec a b); [| lia]
         end.
  cbn [andb]. f_equal. rewrite Hdays, Htime.
  unfold MakeDate, Day, TimeWithinDay, msPerDay. Z.div_mod_to_equations. lia.
Qed.

Example iso_string_epoch : iso_string 0 = "1970-01-01T00:00:00.000Z".
Proof. vm_compute. reflexivity. Qed.

Example iso_string_leap_day :
  iso_string 951827696789 = "2000-02-29T12:34:56.789Z".
Proof. vm_compute. reflexivity. Qed.

Example iso_string_before_epoch :
  iso_string (-1) = "1969-12-31T23:59:59.999Z".
Proof. vm_compute. reflexivity. Qed.

Example iso_string_latest :
  iso_string maxTime = "+275760-09-13T00:00:00.000Z".
Proof. vm_compute. reflexivity. Qed.

Example iso_string_earliest :
  iso_string (- maxTime) = "-271821-04-20T00:00:00.000Z".
Proof. vm_compute. reflexivity. Qed.

Example parse_iso_no_leap_day : parse_iso "2023-02-29T00:00:00.000Z" = None.
Proof. vm_compute. reflexivity. Qed.

Example parse_iso_date_only : parse_iso "2024-01-01" = None.
Proof. vm_compute. reflexivity. Qed.

(** Whatever else the engine recognises, a Date in range that is rendered
    with [toISOString] and parsed again is the same Date. *)
Lemma Date_parse_toISOString engine_parse t s :
  in_range t = true → toISOString (ValidDate t) = Some s →
  Date_parse engine_parse s = ValidDate t.
Proof.
  intros Ht [= <-]. unfold Date_parse, TimeClip.
  by rewrite parse_iso_iso_string, Ht.
Qed.

End JSDateFacts.

(** ** The marshalling functions *)

Section Basics.

Variable native : Native.t.

(** *** Unit resolution *)

Lemma truthy_string u : truthy (VString u) = true ↔ u ≠ "".
Proof.
  cbn [truthy]. rewrite negb_true_iff. split.
  - intros Hne ->. by rewrite String.eqb_refl in Hne.
  - intros Hne. by apply String.eqb_neq.
Qed.

Lemma or_await_explicit u p :
  u ≠ "" → or_await (Some u) p = resolve (Some u).
Proof.
  intros Hu%truthy_string. unfold or_await. by rewrite Hu.
Qed.

Lemma or_await_omitted unit p :
  unit = None ∨ unit = Some "" → or_await unit p = p.
Proof. by intros [-> | ->]. Qed.

(** [getPreferredUnit] makes one call, for the one identifier, and
    reads the entry of that identifier. *)
Lemma getPreferredUnit_run type w :
  getPreferredUnit native type w =
  (match Native.getPreferredUnits native (calls w) [type] with
   | Fulfilled m => Fulfilled (m !! type)
   | Rejected e => Rejected e
   end,
   with_calls (λ cs, cs ++ [CallGetPreferredUnits [type]]) w).
Proof.
  unfold getPreferredUnit, Native_getPreferredUnits, await, bridge, resolve.
  by destruct (Native.getPreferredUnits native (calls w) [type]).
Qed.

End Basics.

Section UnitResolution.

Variable native : Native.t.
Variable engine_parse : string → Date.
Variable clock : nat → Z.

Ltac run :=
  unfold getLastSample, getLastSamples, on, getStatsBetween,
    Native_getLastSamples, Native_observe, Native_getStatsBetween,
    toISOString_async, await, catch, effect, bridge, resolve, reject;
  cbn [fst snd calls with_calls addListener remove with_subscriptions].

Lemma getLastSample_world identifier unit w :
  (getLastSample native engine_parse identifier unit w).2 =
  (getLastSamples native engine_parse identifier (Some 1) unit w).2.
Proof.
  unfold getLastSample, await at 1.
  by destruct (getLastSamples _ _ _ _ _ _) as [[samples | e] w'].
Qed.

Lemma explicit_unit_calls identifier limit callback options from to u w :
  u ≠ "" →
  calls (getLastSamples native engine_parse identifier limit (Some u) w).2
    = calls w ++ [CallGetLastSamples identifier (default 1 limit) (Some u)]
  ∧ calls (getLastSample native engine_parse identifier (Some u) w).2
    = calls w ++ [CallGetLastSamples identifier 1 (Some u)]
  ∧ calls (on native identifier callback (Some u) w).2
    = calls w ++ [CallObserve identifier (Some u)]
  ∧ calls (getStatsBetween native engine_parse clock identifier options
             from to (Some u) w).2
    = calls w ++
      stats_call identifier (Some u) from (or_now clock to w).1 options.
Proof.
  intros Hu. unfold stats_call. split_and!.
  - unfold getLastSamples. rewrite or_await_explicit by done. run.
    by destruct (Native.getLastSamples _ _ _ _ _).
  - unfold getLastSample, getLastSamples. rewrite or_await_explicit by done. run.
    by destruct (Native.getLastSamples _ _ _ _ _).
  - unfold on. rewrite or_await_explicit by done. run.
    by destruct (Native.observe _ _ _ _).
  - unfold getStatsBetween. rewrite or_await_explicit by done. run.
    destruct (or_now clock to w) as [toDate w1] eqn:Hnow. cbn [fst].
    assert (calls w1 = calls w) as Hcalls.
    { destruct to; injection Hnow as <- <-; reflexivity. }
    destruct (toISOString from); [| by cbn; rewrite Hcalls, app_nil_r].
    destruct (toISOString toDate); [| by cbn; rewrite Hcalls, app_nil_r].
    destruct (Native.getStatsBetween _ _ _ _ _ _ _); cbn; by rewrite <- Hcalls.
Qed.

Lemma or_now_calls to w : calls (or_now clock to w).2 = calls w.
Proof. by destruct to. Qed.

Lemma or_now_with_calls to f w :
  or_now clock to (with_calls f w) =
  ((or_now clock to w).1, with_calls f (or_now clock to w).2).
Proof. by destruct to. Qed.

Lemma omitted_unit_calls identifier limit callback options from to unit w :
  unit = None ∨ unit = Some "" →
  let reply := Native.getPreferredUnits native (calls w) [identifier] in
  calls (getLastSamples native engine_parse identifier limit unit w).2
    = calls w ++ preferred_then reply identifier
        (λ actualUnit,
           [CallGetLastSamples identifier (default 1 limit) actualUnit])
  ∧ calls (getLastSample native engine_parse identifier unit w).2
    = calls w ++ preferred_then reply identifier
        (λ actualUnit, [CallGetLastSamples identifier 1 actualUnit])
  ∧ calls (on native identifier callback unit w).2
    = calls w ++ preferred_then reply identifier
        (λ actualUnit, [CallObserve identifier actualUnit])
  ∧ calls (getStatsBetween native engine_parse clock identifier options
             from to unit w).2
    = calls w ++ preferred_then reply identifier
        (λ actualUnit,
           stats_call identifier actualUnit from (or_now clock to w).1
             options).
Proof.
  intros Hunit reply. unfold preferred_then. split_and!.
  - unfold getLastSamples. rewrite or_await_omitted by done.
    unfold await at 1. rewrite getPreferredUnit_run. fold reply.
    destruct reply; [| done]. run.
    destruct (Native.getLastSamples _ _ _ _ _); cbn; by rewrite <- app_assoc.
  - rewrite getLastSample_world.
    unfold getLastSamples. rewrite or_await_omitted by done.
    unfold await at 1. rewrite getPreferredUnit_run. fold reply.
    destruct reply; [| done]. run.
    destruct (Native.getLastSamples _ _ _ _ _); cbn; by rewrite <- app_assoc.
  - unfold on. rewrite or_await_omitted by done.
    unfold await at 1. rewrite getPreferredUnit_run. fold reply.
    destruct reply; [| done]. run.
    destruct (Native.observe _ _ _ _); cbn; by rewrite <- app_assoc.
  - unfold getStatsBetween. rewrite or_await_omitted by done.
    unfold await at 1. rewrite getPreferredUnit_run. fold reply.
    destruct reply; [| done]. unfold await at 1, effect.
    rewrite or_now_with_calls.
    pose proof (or_now_calls to w) as Hcalls.
    destruct (or_now clock to w) as [toDate w1]. cbn [fst snd] in *.
    unfold stats_call. run.
    destruct (toISOString from); [| by cbn; rewrite Hcalls].
    destruct (toISOString toDate); [| by cbn; rewrite Hcalls].
    destruct (Native.getStatsBetween _ _ _ _ _ _ _); cbn;
      by rewrite Hcalls, <- app_assoc.
Qed.

(** C1, as the code has it. In [getLastSamples], [getLastSample], [on] and
    [getStatsBetween], a unit that is supplied and is not the empty string
    goes to the bridge unchanged, and the operation makes no
    [getPreferredUnits] call. When the unit is omitted, or is the empty
    string, the operation first makes one [getPreferredUnits] call for the
    identifier alone; when that call is answered, the entry of the
    identifier in the answer is the unit of the query call, and when it is
    rejected no further call is made. *)
Theorem unit_resolution identifier limit callback options from to unit w :
  (∀ u, unit = Some u → u ≠ "" →
     calls (getLastSamples native engine_parse identifier limit unit w).2
       = calls w ++ [CallGetLastSamples identifier (default 1 limit) (Some u)]
     ∧ calls (getLastSample native engine_parse identifier unit w).2
       = calls w ++ [CallGetLastSamples identifier 1 (Some u)]
     ∧ calls (on native identifier callback unit w).2
       = calls w ++ [CallObserve identifier (Some u)]
     ∧ calls (getStatsBetween native engine_parse clock identifier options
                from to unit w).2
       = calls w ++
         stats_call identifier (Some u) from (or_now clock to w).1 options)
  ∧ (unit = None ∨ unit = Some "" →
     let reply := Native.getPreferredUnits native (calls w) [identifier] in
     calls (getLastSamples native engine_parse identifier limit unit w).2
       = calls w ++ preferred_then reply identifier
           (λ actualUnit,
              [CallGetLastSamples identifier (default 1 limit) actualUnit])
     ∧ calls (getLastSample native engine_parse identifier unit w).2
       = calls w ++ preferred_then reply identifier
           (λ actualUnit, [CallGetLastSamples identifier 1 actualUnit])
     ∧ calls (on native identifier callback unit w).2
       = calls w ++ preferred_then reply identifier
           (λ actualUnit, [CallObserve identifier actualUnit])
     ∧ calls (getStatsBetween native engine_parse clock identifier options
                from to unit w).2
       = calls w ++ preferred_then reply identifier
           (λ actualUnit,
              stats_call identifier actualUnit from (or_now clock to w).1
                options)).
Proof.
  split.
  - intros u -> Hu. by apply explicit_unit_calls.
  - apply omitted_unit_calls.
Qed.

End UnitResolution.

Section Emitter.

Variable native : Native.t.

(** *** Subscriptions *)

Lemma filter_fresh key (subs : list Subscription) :
  Forall (λ s, (sub_key s < key)%nat) subs →
  filter (λ s, sub_key s ≠ key) subs = subs.
Proof.
  induction 1 as [| s subs Hs _ IH]; [done |].
  rewrite filter_cons_True by lia. by rewrite IH.
Qed.

Lemma filter_added key et l (subs : list Subscription) :
  filter (λ s, sub_key s ≠ key)
    (subs ++ [{| sub_key := key; sub_eventType := et; sub_listener := l |}])
  = filter (λ s, sub_key s ≠ key) subs.
Proof.
  rewrite filter_app, filter_cons_False by (cbn; auto).
  rewrite filter_nil. apply app_nil_r.
Qed.

(** [on], step by step: the unit, the listener, the observer query. *)
Lemma on_run identifier callback unit w :
  on native identifier callback unit w =
  match or_await unit (getPreferredUnit native identifier) w with
  | (Rejected e, w1) => (Rejected e, w1)
  | (Fulfilled actualUnit, w1) =>
      let s := {| sub_key := next_key w1; sub_eventType := "onQueryUpdated";
                  sub_listener :=
                    {| listener_identifier := identifier;
                       listener_callback := callback |} |} in
      let made := calls w1 ++ [CallObserve identifier actualUnit] in
      match Native.observe native (calls w1) identifier actualUnit with
      | Fulfilled queryId =>
          (Fulfilled {| unsub_subscription := next_key w1;
                        unsub_queryId := queryId |},
           {| calls := made; subscriptions := subscriptions w1 ++ [s];
              next_key := S (next_key w1); invocations := invocations w1;
              clock_reads := clock_reads w1 |})
      | Rejected e =>
          (Rejected e,
           {| calls := made;
              subscriptions :=
                filter (λ s, sub_key s ≠ next_key w1) (subscriptions w1);
              next_key := S (next_key w1); invocations := invocations w1;
              clock_reads := clock_reads w1 |})
      end
  end.
Proof.
  unfold on, await at 1.
  destruct (or_await _ _ w) as [[actualUnit | e] w1]; [| done].
  unfold await, effect, addListener, catch, Native_observe, bridge, resolve,
    reject, remove, with_subscriptions, with_calls. cbn.
  destruct (Native.observe _ _ _ _); [done |].
  by rewrite filter_added.
Qed.

(** Resolving the unit leaves the emitter alone. *)
Lemma or_await_emitter unit identifier w :
  let w1 := (or_await unit (getPreferredUnit native identifier) w).2 in
  subscriptions w1 = subscriptions w ∧ next_key w1 = next_key w ∧
  invocations w1 = invocations w.
Proof.
  unfold or_await.
  destruct unit as [u |]; [destruct (truthy (VString u)); [done |] |];
    by rewrite getPreferredUnit_run.
Qed.

End Emitter.

Section Subscriptions.

Variable native : Native.t.
Variable engine_parse : string → Date.

(** C2. When the unit of [on] is resolved and [Native.observe] rejects,
    [on] rejects with the same error, and in the world it leaves no
    subscription has the key that the listener of this call was given:
    the listener was removed before the rejection reached the caller.
    Every subscription left was there before the call, and when keys are
    fresh the subscriptions are those from before the call. *)
Theorem on_rejected_observe_removes_listener
    identifier callback unit w actualUnit w1 error :
  or_await unit (getPreferredUnit native identifier) w
    = (Fulfilled actualUnit, w1) →
  Native.observe native (calls w1) identifier actualUnit = Rejected error →
  ∃ w', on native identifier callback unit w = (Rejected error, w') ∧
        (∀ s, s ∈ subscriptions w' → sub_key s ≠ next_key w) ∧
        (∀ s, s ∈ subscriptions w' → s ∈ subscriptions w) ∧
        (fresh_keys w → subscriptions w' = subscriptions w).
Proof.
  intros Hunit Hobserve.
  pose proof (or_await_emitter native unit identifier w) as (Hsubs & Hkey & _).
  rewrite on_run. rewrite Hunit in *. cbn in *. rewrite Hobserve.
  eexists. split; [done |]. cbn. rewrite Hsubs, Hkey. split_and!.
  - by intros s [Hs _]%list_elem_of_filter.
  - by intros s [_ Hs]%list_elem_of_filter.
  - apply filter_fresh.
Qed.

(** *** Events *)

Lemma emit_run eventType ev (subs : list Subscription) : ∀ w,
  let w' := foldl (λ w s, if decide (sub_eventType s = eventType)
                          then call_listener engine_parse (sub_listener s) ev w
                          else w) w subs in
  invocations w' =
    invocations w ++ flat_map (invocations_of engine_parse eventType ev) subs
  ∧ calls w' = calls w ∧ subscriptions w' = subscriptions w
  ∧ next_key w' = next_key w ∧ clock_reads w' = clock_reads w.
Proof.
  induction subs as [| s subs IH]; intros w; cbn [foldl flat_map].
  - by rewrite app_nil_r.
  - destruct (IH (if decide (sub_eventType s = eventType)
                  then call_listener engine_parse (sub_listener s) ev w
                  else w)) as (-> & -> & -> & -> & ->).
    unfold invocations_of at 2, call_listener.
    repeat case_decide; cbn; by rewrite <- ?app_assoc.
Qed.

Lemma emit_invocations eventType ev w :
  invocations (emit engine_parse eventType ev w) =
  invocations w ++
  flat_map (invocations_of engine_parse eventType ev) (subscriptions w).
Proof. apply emit_run. Qed.

(** C6. After [on identifier callback unit] has resolved, an
    [onQueryUpdated] event invokes [callback], with the samples of the
    event deserialized, exactly when the [typeIdentifier] of the event is
    [identifier]: next to what the listeners registered before do, the
    event adds that one invocation, or none for another identifier. *)
Theorem listener_filters_by_identifier identifier callback unit w u w1 ev :
  on native identifier callback unit w = (Fulfilled u, w1) →
  invocations (emit engine_parse "onQueryUpdated" ev w1) =
  invocations (emit engine_parse "onQueryUpdated" ev w) ++
  (if decide (typeIdentifier ev = identifier) then
     [{| invoked := callback;
         invoked_with := deserializeSample engine_parse <$> samples ev |}]
   else []).
Proof.
  rewrite on_run.
  pose proof (or_await_emitter native unit identifier w) as (Hsubs & Hkey & Hinv).
  destruct (or_await _ _ w) as [[actualUnit | e] w']; cbn in *; [| done].
  destruct (Native.observe _ _ _ _); intros [= <- <-].
  rewrite !emit_invocations. cbn [invocations subscriptions].
  rewrite Hsubs, Hinv, flat_map_app, app_assoc. f_equal.
  cbn. unfold invocations_of. cbn. rewrite decide_True by done.
  apply app_nil_r.
Qed.

(** C8. For the function [u] that [on] resolved with, called in any later
    world, and then a second time: neither call throws, each returns the
    promise of a [stopObserving] bridge call with the query id that
    [Native.observe] answered, as the bridge settles it, and each call is
    made (none is dropped locally). The first call removes the subscription
    of [u], the second finds it gone and leaves the emitter as it is. No
    callback is invoked by either call, and an event that arrives afterwards
    reaches only the other subscriptions. *)
Theorem unsubscribe_twice identifier callback unit w0 u w1 w :
  on native identifier callback unit w0 = (Fulfilled u, w1) →
  ∃ w2 w3,
    unsubscribe native u w =
      (Normal (Native.stopObserving native (calls w) (unsub_queryId u)), w2) ∧
    unsubscribe native u w2 =
      (Normal (Native.stopObserving native (calls w2) (unsub_queryId u)), w3) ∧
    calls w2 = calls w ++ [CallStopObserving (unsub_queryId u)] ∧
    calls w3 = calls w2 ++ [CallStopObserving (unsub_queryId u)] ∧
    invocations w2 = invocations w ∧ invocations w3 = invocations w ∧
    subscriptions w2 =
      filter (λ s, sub_key s ≠ unsub_subscription u) (subscriptions w) ∧
    subscriptions w3 = subscriptions w2 ∧
    (∀ s, s ∈ subscriptions w3 → sub_key s ≠ unsub_subscription u) ∧
    (∀ eventType ev,
       invocations (emit engine_parse eventType ev w3) =
       invocations w ++
       flat_map (invocations_of engine_parse eventType ev)
         (filter (λ s, sub_key s ≠ unsub_subscription u) (subscriptions w))) ∧
    unsub_subscription u = next_key w0 ∧
    (∃ actualUnit made,
       Native.observe native made identifier actualUnit
         = Fulfilled (unsub_queryId u)).
Proof.
  intros Hon. unfold unsubscribe, returns, Native_stopObserving, bridge, remove.
  cbn.
  assert (filter (λ s, sub_key s ≠ unsub_subscription u)
            (filter (λ s, sub_key s ≠ unsub_subscription u) (subscriptions w))
          = filter (λ s, sub_key s ≠ unsub_subscription u) (subscriptions w))
    as Hagain.
  { rewrite list_filter_filter. apply list_filter_iff. intros s. tauto. }
  revert Hon. rewrite on_run.
  pose proof (or_await_emitter native unit identifier w0) as (_ & Hkey & _).
  destruct (or_await _ _ w0) as [[actualUnit | e] w']; cbn in *; [| done].
  destruct (Native.observe _ _ _ _) as [queryId |] eqn:Hobserve;
    intros [= <- <-]; cbn in *.
  do 2 eexists. split_and!; try done.
  - cbn. by intros s [Hs _]%list_elem_of_filter.
  - intros eventType ev. rewrite emit_invocations. cbn. by rewrite Hagain.
  - eauto.
Qed.

(** *** Keys stay fresh *)

Lemma fresh_keys_initial : fresh_keys initial_world.
Proof. constructor. Qed.

Lemma on_fresh_keys identifier callback unit w :
  fresh_keys w → fresh_keys (on native identifier callback unit w).2.
Proof.
  unfold fresh_keys. intros Hfresh. rewrite on_run.
  pose proof (or_await_emitter native unit identifier w) as (Hsubs & Hkey & _).
  destruct (or_await _ _ w) as [[actualUnit | e] w1]; cbn in *;
    rewrite <- Hsubs, <- Hkey in Hfresh; [| done].
  destruct (Native.observe _ _ _ _); cbn.
  - apply Forall_app. split.
    + eapply Forall_impl; [done |]. intros s Hs. cbn in Hs. lia.
    + repeat constructor.
  - apply Forall_forall. intros s [_ Hs]%list_elem_of_filter.
    rewrite Forall_forall in Hfresh. specialize (Hfresh s Hs). cbn in *. lia.
Qed.

Lemma unsubscribe_fresh_keys u w :
  fresh_keys w → fresh_keys (unsubscribe native u w).2.
Proof.
  unfold fresh_keys, unsubscribe, returns, Native_stopObserving, bridge, remove.
  cbn. rewrite !Forall_forall. intros Hfresh s [_ Hs]%list_elem_of_filter.
  by apply Hfresh.
Qed.

Lemma emit_fresh_keys eventType ev w :
  fresh_keys w → fresh_keys (emit engine_parse eventType ev w).
Proof.
  unfold fresh_keys, emit.
  by destruct (emit_run eventType ev (subscriptions w) w) as (_ & _ & -> & -> & _).
Qed.

End Subscriptions.

Section Authorization.

Variable native : Native.t.

(** *** Permissions *)

Lemma flatten_lookup (ids : list string) : ∀ (obj : Permissions) k,
  foldl (λ (obj : Permissions) cur, <[cur := true]> obj) obj ids !! k =
  if decide (k ∈ ids) then Some true else obj !! k.
Proof.
  induction ids as [| id ids IH]; intros obj k; cbn [foldl].
  - by rewrite decide_False by apply not_elem_of_nil.
  - rewrite IH. destruct (decide (k ∈ ids)) as [Hin | Hnotin].
    + by rewrite decide_True by (by right).
    + destruct (decide (k = id)) as [-> | Hne].
      * rewrite lookup_insert_eq. by rewrite decide_True by left.
      * rewrite lookup_insert_ne by done.
        by rewrite decide_False by (by intros [? | ?]%elem_of_cons).
Qed.

Lemma presence_map_lookup ids k :
  presence_map ids !! k = if decide (k ∈ ids) then Some true else None.
Proof.
  unfold presence_map. rewrite lookup_gset_to_gmap.
  destruct (decide (k ∈ ids)) as [Hin | Hnotin].
  - by rewrite option_guard_True by (by apply elem_of_list_to_set).
  - by rewrite option_guard_False by (by rewrite elem_of_list_to_set).
Qed.

Lemma flatten_presence_map ids :
  foldl (λ (obj : Permissions) cur, <[cur := true]> obj) ∅ ids
  = presence_map ids.
Proof.
  apply map_eq. intros k. rewrite flatten_lookup, presence_map_lookup.
  by rewrite lookup_empty.
Qed.

(** C3. [requestAuthorization read write] makes one bridge call, with the
    flattened [write] list and the flattened [read] list, and returns the
    promise of that call as the bridge settles it;
    [getRequestStatusForAuthorization] flattens the same way. An omitted
    [write] is the empty list. The flattening maps exactly the identifiers
    of the list to [true]: the empty list gives the empty map, [[a; b]]
    gives [{a: true, b: true}], a permutation of the list gives the same
    map and so does a repeated identifier. *)
Theorem requestAuthorization_flattens read write w :
  let readMap := presence_map read in
  let writeMap := presence_map (default [] write) in
  requestAuthorization native read write w =
    (Normal (Native.requestAuthorization native (calls w) writeMap readMap),
     with_calls (λ cs, cs ++ [CallRequestAuthorization writeMap readMap]) w)
  ∧ getRequestStatusForAuthorization native read write w =
    (Normal (Native.getRequestStatusForAuthorization native (calls w)
               writeMap readMap),
     with_calls
       (λ cs, cs ++ [CallGetRequestStatusForAuthorization writeMap readMap]) w)
  ∧ presence_map [] = ∅
  ∧ (∀ a b, presence_map [a; b] = <[a := true]> (<[b := true]> ∅))
  ∧ (∀ ids k,
       presence_map ids !! k = if decide (k ∈ ids) then Some true else None)
  ∧ (∀ ids ids', ids ≡ₚ ids' → presence_map ids = presence_map ids')
  ∧ (∀ a ids, a ∈ ids → presence_map (a :: ids) = presence_map ids).
Proof.
  intros readMap writeMap. split_and!.
  - unfold requestAuthorization. by rewrite !flatten_presence_map.
  - unfold getRequestStatusForAuthorization. by rewrite !flatten_presence_map.
  - done.
  - intros a b. apply map_eq. intros k. rewrite presence_map_lookup.
    destruct (decide (k = a)) as [-> | Ha].
    + rewrite lookup_insert_eq. by rewrite decide_True by left.
    + rewrite lookup_insert_ne by done.
      destruct (decide (k = b)) as [-> | Hb].
      * rewrite lookup_insert_eq. by rewrite decide_True by (right; left).
      * rewrite lookup_insert_ne, lookup_empty by done.
        rewrite decide_False; [done |].
        by intros [? | [? | ?%elem_of_nil]%elem_of_cons]%elem_of_cons.
  - apply presence_map_lookup.
  - intros ids ids' Hperm. apply map_eq. intros k.
    rewrite !presence_map_lookup.
    destruct (decide (k ∈ ids)) as [Hin | Hnotin].
    + by rewrite decide_True by (by rewrite <- Hperm).
    + by rewrite decide_False by (by rewrite <- Hperm).
  - intros a ids Ha. apply map_eq. intros k. rewrite !presence_map_lookup.
    destruct (decide (k ∈ ids)) as [Hin | Hnotin].
    + by rewrite decide_True by (by right).
    + rewrite decide_False; [done |].
      intros [-> | ?]%elem_of_cons; done.
Qed.

End Authorization.

Section Samples.

Variable native : Native.t.
Variable engine_parse : string → Date.

(** *** Samples *)

Lemma deserializeSample_startDate sample :
  deserializeSample engine_parse sample !! "startDate" =
  Some (VDate (Date_new engine_parse (prop sample "startDate"))).
Proof.
  unfold deserializeSample.
  by rewrite lookup_insert_ne, lookup_insert_eq.
Qed.

Lemma deserializeSample_endDate sample :
  deserializeSample engine_parse sample !! "endDate" =
  Some (VDate (Date_new engine_parse (prop sample "endDate"))).
Proof. unfold deserializeSample. by rewrite lookup_insert_eq. Qed.

Lemma deserializeSample_other sample k :
  k ≠ "startDate" → k ≠ "endDate" →
  deserializeSample engine_parse sample !! k = sample !! k.
Proof.
  intros Hstart Hend. unfold deserializeSample.
  by rewrite !lookup_insert_ne.
Qed.

Lemma valid_date_round_trips t :
  in_range t = true → round_trips engine_parse (ValidDate t).
Proof.
  intros Ht. exists (iso_string t). split; [done |].
  by apply JSDateFacts.Date_parse_toISOString.
Qed.

(** C5. A sample whose [startDate] and [endDate] are dates that round-trip
    through the ISO 8601 rendering can be serialized, and deserializing
    the result gives the sample back. [deserializeSample] replaces
    [startDate] and [endDate] by the Date made from the value it finds
    there, and leaves every other property as it is. Every Date with a time
    value in range round-trips. *)
Theorem deserialize_serialize sample :
  (∀ startDate endDate,
     sample !! "startDate" = Some (VDate startDate) →
     sample !! "endDate" = Some (VDate endDate) →
     round_trips engine_parse startDate →
     round_trips engine_parse endDate →
     ∃ raw, serializeSample sample = Some raw ∧
            deserializeSample engine_parse raw = sample)
  ∧ (∀ k, k ≠ "startDate" → k ≠ "endDate" →
       deserializeSample engine_parse sample !! k = sample !! k)
  ∧ deserializeSample engine_parse sample !! "startDate" =
      Some (VDate (Date_new engine_parse (prop sample "startDate")))
  ∧ deserializeSample engine_parse sample !! "endDate" =
      Some (VDate (Date_new engine_parse (prop sample "endDate")))
  ∧ (∀ t, in_range t = true → round_trips engine_parse (ValidDate t)).
Proof.
  split_and!.
  - intros startDate endDate Hstart Hend (startISO & HstartISO & Hstart')
      (endISO & HendISO & Hend').
    unfold serializeSample, prop. rewrite Hstart, Hend. cbn [default from_option id].
    rewrite HstartISO, HendISO. cbn [mbind option_bind].
    eexists. split; [done |].
    apply map_eq. intros k. unfold deserializeSample, prop.
    rewrite lookup_insert_eq. cbn [default from_option id Date_new].
    rewrite (lookup_insert_ne _ "endDate" "startDate") by done.
    rewrite lookup_insert_eq. cbn [default from_option id Date_new].
    rewrite Hstart', Hend'.
    destruct (decide (k = "endDate")) as [-> | Hk].
    { by rewrite lookup_insert_eq. }
    rewrite lookup_insert_ne by done.
    destruct (decide (k = "startDate")) as [-> | Hk'].
    { by rewrite lookup_insert_eq. }
    by rewrite !lookup_insert_ne.
  - apply deserializeSample_other.
  - apply deserializeSample_startDate.
  - apply deserializeSample_endDate.
  - apply valid_date_round_trips.
Qed.

(** What [getLastSamples] resolves with. *)
Lemma getLastSamples_fulfilled identifier limit unit w actualUnit w1 raws :
  or_await unit (getPreferredUnit native identifier) w
    = (Fulfilled actualUnit, w1) →
  Native.getLastSamples native (calls w1) identifier (default 1 limit)
    actualUnit = Fulfilled raws →
  getLastSamples native engine_parse identifier limit unit w =
  (Fulfilled (deserializeSample engine_parse <$> raws),
   with_calls
     (λ cs, cs ++ [CallGetLastSamples identifier (default 1 limit) actualUnit])
     w1).
Proof.
  intros Hunit Hreply.
  unfold getLastSamples, await at 1. rewrite Hunit.
  unfold await, Native_getLastSamples, bridge, resolve. by rewrite Hreply.
Qed.

(** C4, as the code has it. [deserializeSample] does not fail on a date
    string that cannot be parsed: the property becomes the Invalid Date,
    the other properties are as they were, and [getLastSamples] resolves
    with the deserialized samples whenever the bridge answers, such a
    sample among them or not. *)
Theorem unparseable_date_is_invalid_date sample :
  (∀ s, sample !! "startDate" = Some (VString s) →
        Date_parse engine_parse s = InvalidDate →
        deserializeSample engine_parse sample !! "startDate"
          = Some (VDate InvalidDate))
  ∧ (∀ s, sample !! "endDate" = Some (VString s) →
          Date_parse engine_parse s = InvalidDate →
          deserializeSample engine_parse sample !! "endDate"
            = Some (VDate InvalidDate))
  ∧ (∀ k, k ≠ "startDate" → k ≠ "endDate" →
          deserializeSample engine_parse sample !! k = sample !! k)
  ∧ (∀ identifier limit unit w actualUnit w1 raws,
       or_await unit (getPreferredUnit native identifier) w
         = (Fulfilled actualUnit, w1) →
       Native.getLastSamples native (calls w1) identifier (default 1 limit)
         actualUnit = Fulfilled (raws ++ [sample]) →
       (getLastSamples native engine_parse identifier limit unit w).1 =
       Fulfilled ((deserializeSample engine_parse <$> raws) ++
                  [deserializeSample engine_parse sample])).
Proof.
  split_and!.
  - intros s Hs Hparse. rewrite deserializeSample_startDate.
    unfold prop. rewrite Hs. cbn. by rewrite Hparse.
  - intros s Hs Hparse. rewrite deserializeSample_endDate.
    unfold prop. rewrite Hs. cbn. by rewrite Hparse.
  - apply deserializeSample_other.
  - intros identifier limit unit w actualUnit w1 raws Hunit Hreply.
    rewrite (getLastSamples_fulfilled _ _ _ _ _ _ _ Hunit Hreply).
    cbn [fst]. by rewrite fmap_app.
Qed.

(** C10. [getLastSample] is [getLastSamples] with limit 1 followed by
    reading element 0 of the samples: it asks the bridge for one sample and
    resolves with the first sample, deserialized, or with [undefined]
    ([None]) when the bridge answers with the empty list, without an error.
    [getLastSamples] with its limit omitted is [getLastSamples] with
    limit 1. *)
Theorem getLastSample_first identifier unit w :
  getLastSample native engine_parse identifier unit w =
    (match (getLastSamples native engine_parse identifier (Some 1) unit w).1
     with
     | Fulfilled samples => Fulfilled (samples !! 0%nat)
     | Rejected e => Rejected e
     end,
     (getLastSamples native engine_parse identifier (Some 1) unit w).2)
  ∧ getLastSamples native engine_parse identifier None unit w =
    getLastSamples native engine_parse identifier (Some 1) unit w
  ∧ (∀ actualUnit w1 raws,
       or_await unit (getPreferredUnit native identifier) w
         = (Fulfilled actualUnit, w1) →
       Native.getLastSamples native (calls w1) identifier 1 actualUnit
         = Fulfilled raws →
       getLastSample native engine_parse identifier unit w =
       (Fulfilled (deserializeSample engine_parse <$> raws !! 0%nat),
        with_calls (λ cs, cs ++ [CallGetLastSamples identifier 1 actualUnit])
          w1))
  ∧ (∀ actualUnit w1,
       or_await unit (getPreferredUnit native identifier) w
         = (Fulfilled actualUnit, w1) →
       Native.getLastSamples native (calls w1) identifier 1 actualUnit
         = Fulfilled [] →
       (getLastSample native engine_parse identifier unit w).1
         = Fulfilled None).
Proof.
  assert (∀ actualUnit w1 raws,
    or_await unit (getPreferredUnit native identifier) w
      = (Fulfilled actualUnit, w1) →
    Native.getLastSamples native (calls w1) identifier 1 actualUnit
      = Fulfilled raws →
    getLastSample native engine_parse identifier unit w =
    (Fulfilled (deserializeSample engine_parse <$> raws !! 0%nat),
     with_calls (λ cs, cs ++ [CallGetLastSamples identifier 1 actualUnit])
       w1)) as Hfirst.
  { intros actualUnit w1 raws Hunit Hreply.
    unfold getLastSample, await at 1.
    rewrite (getLastSamples_fulfilled _ (Some 1) _ _ _ _ _ Hunit Hreply).
    unfold resolve. by rewrite list_lookup_fmap. }
  split_and!.
  - unfold getLastSample, await at 1.
    by destruct (getLastSamples _ _ _ _ _ _) as [[samples | e] w'].
  - done.
  - done.
  - intros actualUnit w1 Hunit Hreply.
    by rewrite (Hfirst _ _ _ Hunit Hreply).
Qed.

End Samples.

Section StatisticsAndSaving.

Variable native : Native.t.
Variable engine_parse : string → Date.
Variable clock : nat → Z.

(** *** Statistics *)

(** C7. When the unit is resolved, both dates can be rendered and the
    bridge answers with [raw], [getStatsBetween] resolves with a response in
    which every property other than [mostRecentQuantityDateInterval] is the
    one of [raw], present or absent alike; [mostRecentQuantityDateInterval]
    is absent when it is absent in [raw], and when [raw] has an object
    there, it is the object of the two properties [from] and [to], each
    the Date made from the value of [raw], the parsed date for a wire
    string. *)
Theorem getStatsBetween_normalizes
    identifier options from to unit w actualUnit w1 fromISO toISO raw :
  or_await unit (getPreferredUnit native identifier) w
    = (Fulfilled actualUnit, w1) →
  toISOString from = Some fromISO →
  toISOString (or_now clock to w1).1 = Some toISO →
  Native.getStatsBetween native (calls w1) identifier actualUnit fromISO toISO
    options = Fulfilled raw →
  ∃ response w',
    getStatsBetween native engine_parse clock identifier options from to
      unit w = (Fulfilled response, w') ∧
    (∀ k, k ≠ "mostRecentQuantityDateInterval" → response !! k = raw !! k) ∧
    (raw !! "mostRecentQuantityDateInterval" = None →
     response !! "mostRecentQuantityDateInterval" = None) ∧
    (∀ interval,
       raw !! "mostRecentQuantityDateInterval" = Some (VObject interval) →
       response !! "mostRecentQuantityDateInterval" =
       Some (VObject
               (<["to" := VDate (Date_new engine_parse (prop interval "to"))]>
                  (<["from" :=
                       VDate (Date_new engine_parse (prop interval "from"))]>
                     ∅)))) ∧
    (∀ interval fromString toString,
       raw !! "mostRecentQuantityDateInterval" = Some (VObject interval) →
       interval !! "from" = Some (VString fromString) →
       interval !! "to" = Some (VString toString) →
       response !! "mostRecentQuantityDateInterval" =
       Some (VObject
               (<["to" := VDate (Date_parse engine_parse toString)]>
                  (<["from" := VDate (Date_parse engine_parse fromString)]>
                     ∅)))).
Proof.
  intros Hunit Hfrom Hto Hreply.
  unfold getStatsBetween, await at 1. rewrite Hunit.
  unfold await at 1, effect.
  pose proof (or_now_calls clock to w1) as Hcalls.
  destruct (or_now clock to w1) as [toDate w2]. cbn [fst snd] in *.
  unfold toISOString_async. rewrite Hfrom, Hto.
  unfold await, resolve, Native_getStatsBetween, bridge.
  rewrite Hcalls, Hreply.
  do 2 eexists. split; [done |].
  assert (∀ interval,
    raw !! "mostRecentQuantityDateInterval" = Some (VObject interval) →
    spread (delete "mostRecentQuantityDateInterval" raw)
      (if truthy (prop raw "mostRecentQuantityDateInterval") then
         {[ "mostRecentQuantityDateInterval" :=
              VObject
                (<["to" := VDate (Date_new engine_parse
                    (get (prop raw "mostRecentQuantityDateInterval") "to"))]>
                   (<["from" := VDate (Date_new engine_parse
                    (get (prop raw "mostRecentQuantityDateInterval") "from"))]>
                      ∅)) ]}
       else ∅) !! "mostRecentQuantityDateInterval" =
    Some (VObject
            (<["to" := VDate (Date_new engine_parse (prop interval "to"))]>
               (<["from" :=
                    VDate (Date_new engine_parse (prop interval "from"))]>
                  ∅)))) as Hpresent.
  { intros interval Hraw. unfold spread, prop at 1 2 3. rewrite Hraw.
    cbn [default from_option id truthy get].
    by rewrite lookup_union_l', lookup_singleton_eq
      by (by rewrite lookup_singleton_eq). }
  split_and!.
  - intros k Hk. unfold spread.
    rewrite lookup_union_r.
    + by rewrite lookup_delete_ne.
    + destruct (truthy _); [by rewrite lookup_singleton_ne | done].
  - intros Hraw. unfold spread, prop. rewrite Hraw. cbn [default from_option id truthy].
    by rewrite lookup_union_r, lookup_delete_eq.
  - done.
  - intros interval fromString toString Hraw Hf Ht.
    rewrite (Hpresent _ Hraw). unfold prop. by rewrite Hf, Ht.
Qed.

(** *** Saving *)

Lemma save_dates givenStart givenEnd w :
  let '(s, w0) := or_now clock (or_else givenStart givenEnd) w in
  let '(e, w1) := or_now clock (or_else givenEnd givenStart) w0 in
  match givenStart, givenEnd with
  | Some s, _ => s
  | None, Some e => e
  | None, None => TimeClip (clock (clock_reads w))
  end = s ∧
  match givenEnd, givenStart with
  | Some e, _ => e
  | None, Some s => s
  | None, None => TimeClip (clock (S (clock_reads w)))
  end = e ∧
  calls w1 = calls w.
Proof. by destruct givenStart, givenEnd. Qed.

(** C9. [save] renders as start date [options.start], else [options.end],
    else the current time, and as end date [options.end], else
    [options.start], else the current time (read again); when both can be
    rendered it makes one [Native.save] call with the two strings and
    returns its promise. With exactly one of the two dates given, start and
    end are the same date. Omitted metadata is the empty object. When a
    date cannot be rendered, [save] throws a [RangeError] and calls
    nothing. *)
Theorem save_defaults identifier unit value options w :
  let givenStart := options ≫= start in
  let givenEnd := options ≫= end_ in
  let start' :=
    match givenStart, givenEnd with
    | Some s, _ => s
    | None, Some e => e
    | None, None => TimeClip (clock (clock_reads w))
    end in
  let end' :=
    match givenEnd, givenStart with
    | Some e, _ => e
    | None, Some s => s
    | None, None => TimeClip (clock (S (clock_reads w)))
    end in
  let metadata' :=
    match options ≫= metadata with
    | Some given => if truthy given then given else VObject ∅
    | None => VObject ∅
    end in
  (∀ startISO endISO,
     toISOString start' = Some startISO →
     toISOString end' = Some endISO →
     ∃ w', save native clock identifier unit value options w =
             (Normal (Native.save native (calls w) identifier unit value
                        startISO endISO metadata'), w') ∧
           calls w' = calls w ++
             [CallSave identifier unit value startISO endISO metadata'])
  ∧ (givenStart = None ∧ is_Some givenEnd ∨
     is_Some givenStart ∧ givenEnd = None → start' = end')
  ∧ (options ≫= metadata = None → metadata' = VObject ∅)
  ∧ (toISOString start' = None ∨ toISOString end' = None →
     ∃ w', save native clock identifier unit value options w =
             (Throw RangeError, w') ∧ calls w' = calls w).
Proof.
  unfold save. cbv zeta.
  generalize (options ≫= start) (options ≫= end_) (options ≫= metadata).
  intros givenStart givenEnd givenMetadata.
  pose proof (save_dates givenStart givenEnd w) as Hdates.
  destruct (or_now clock (or_else givenStart givenEnd) w) as [s w0].
  destruct (or_now clock (or_else givenEnd givenStart) w0) as [e w1].
  destruct Hdates as (<- & <- & Hcalls).
  replace (if truthy (default VUndefined givenMetadata)
           then default VUndefined givenMetadata else VObject ∅)
    with (match givenMetadata with
          | Some given => if truthy given then given else VObject ∅
          | None => VObject ∅
          end) by (by destruct givenMetadata).
  split_and!.
  - intros startISO endISO -> ->.
    unfold returns, Native_save, bridge. rewrite Hcalls.
    eexists. split; [done |]. cbn. by rewrite Hcalls.
  - intros [[-> [e' ->]] | [[s' ->] ->]]; done.
  - by intros ->.
  - intros [-> | ->]; [by eexists |].
    destruct (toISOString _); by eexists.
Qed.

End StatisticsAndSaving.


(** ** The functions at work on the demo device *)

(** C1 as written fails: [getLastSamples] is given the empty string as its
    unit, asks for the preferred unit, and sends ["count"] to the bridge. *)
Lemma explicit_empty_unit_is_replaced :
  calls (getLastSamples Demo.native strict_engine Demo.stepCount (Some 1)
           (Some "") initial_world).2
  = [CallGetPreferredUnits [Demo.stepCount];
     CallGetLastSamples Demo.stepCount 1 (Some "count")]
  ∧ calls (on Demo.native Demo.stepCount Demo.callback (Some "")
             initial_world).2
  = [CallGetPreferredUnits [Demo.stepCount];
     CallObserve Demo.stepCount (Some "count")].
Proof. split; vm_compute; reflexivity. Qed.

Lemma unit_resolution_witness :
  calls (getLastSamples Demo.native strict_engine Demo.stepCount None
           (Some "count") initial_world).2
  = [CallGetLastSamples Demo.stepCount 1 (Some "count")]
  ∧ calls (on Demo.native Demo.stepCount Demo.callback None initial_world).2
  = [CallGetPreferredUnits [Demo.stepCount];
     CallObserve Demo.stepCount (Some "count")].
Proof.
  split.
  - pose proof (unit_resolution Demo.native strict_engine Demo.clock
                  Demo.stepCount None Demo.callback [] (ValidDate 0) None
                  (Some "count") initial_world) as [Hexplicit _].
    destruct (Hexplicit "count" eq_refl) as (Hcalls & _); [compute_done |].
    exact Hcalls.
  - pose proof (unit_resolution Demo.native strict_engine Demo.clock
                  Demo.stepCount None Demo.callback [] (ValidDate 0) None
                  None initial_world) as [_ Homitted].
    destruct (Homitted (or_introl eq_refl)) as (_ & _ & Hcalls & _).
    exact Hcalls.
Defined.

Lemma on_rejected_observe_removes_listener_witness :
  or_await (Some "count") (getPreferredUnit Demo.refusing Demo.stepCount)
    Demo.busy_world = (Fulfilled (Some "count"), Demo.busy_world)
  ∧ Native.observe Demo.refusing (calls Demo.busy_world) Demo.stepCount
      (Some "count") = Rejected (NativeError "not authorized")
  ∧ ∃ w', on Demo.refusing Demo.stepCount Demo.callback (Some "count")
            Demo.busy_world = (Rejected (NativeError "not authorized"), w') ∧
          (∀ s, s ∈ subscriptions w' → sub_key s ≠ next_key Demo.busy_world) ∧
          (∀ s, s ∈ subscriptions w' → s ∈ subscriptions Demo.busy_world) ∧
          (fresh_keys Demo.busy_world →
           subscriptions w' = subscriptions Demo.busy_world).
Proof.
  split; [reflexivity |]. split; [reflexivity |].
  apply (on_rejected_observe_removes_listener Demo.refusing Demo.stepCount
           Demo.callback (Some "count") Demo.busy_world (Some "count")
           Demo.busy_world (NativeError "not authorized")); reflexivity.
Defined.

Lemma listener_filters_by_identifier_witness :
  let u := {| unsub_subscription := 1; unsub_queryId := "query-1" |} in
  let w1 := (on Demo.native Demo.stepCount Demo.callback (Some "count")
               Demo.busy_world).2 in
  on Demo.native Demo.stepCount Demo.callback (Some "count") Demo.busy_world
    = (Fulfilled u, w1)
  ∧ invocations (emit strict_engine "onQueryUpdated" Demo.update w1)
    = [{| invoked := Demo.callback;
          invoked_with := [deserializeSample strict_engine Demo.raw_sample] |}]
  ∧ invocations (emit strict_engine "onQueryUpdated" Demo.other_update w1)
    = invocations
        (emit strict_engine "onQueryUpdated" Demo.other_update Demo.busy_world).
Proof.
  intros u w1.
  assert (on Demo.native Demo.stepCount Demo.callback (Some "count")
            Demo.busy_world = (Fulfilled u, w1)) as Hon by reflexivity.
  split; [exact Hon |]. split.
  - exact (listener_filters_by_identifier Demo.native strict_engine
             Demo.stepCount Demo.callback (Some "count") Demo.busy_world u w1
             Demo.update Hon).
  - rewrite (listener_filters_by_identifier Demo.native strict_engine
               Demo.stepCount Demo.callback (Some "count") Demo.busy_world u w1
               Demo.other_update Hon).
    apply app_nil_r.
Defined.

Lemma unsubscribe_twice_witness :
  let u := {| unsub_subscription := 1; unsub_queryId := "query-1" |} in
  let w1 := (on Demo.native Demo.stepCount Demo.callback (Some "count")
               Demo.busy_world).2 in
  on Demo.native Demo.stepCount Demo.callback (Some "count") Demo.busy_world
    = (Fulfilled u, w1)
  ∧ ∃ w2 w3,
      unsubscribe Demo.native u w1 = (Normal (Fulfilled true), w2) ∧
      unsubscribe Demo.native u w2 = (Normal (Fulfilled false), w3) ∧
      calls w3 = calls w1 ++ [CallStopObserving "query-1";
                              CallStopObserving "query-1"] ∧
      invocations w3 = invocations w1 ∧
      subscriptions w3 = subscriptions Demo.busy_world ∧
      invocations (emit strict_engine "onQueryUpdated" Demo.update w3) = [].
Proof.
  intros u w1.
  assert (on Demo.native Demo.stepCount Demo.callback (Some "count")
            Demo.busy_world = (Fulfilled u, w1)) as Hon by reflexivity.
  split; [exact Hon |].
  destruct (unsubscribe_twice Demo.native strict_engine Demo.stepCount
              Demo.callback (Some "count") Demo.busy_world u w1 w1 Hon)
    as (w2 & w3 & Hfirst & Hsecond & Hcalls2 & Hcalls3 & _ & Hinv & Hsubs2
        & Hsubs3 & _ & Hemit & _).
  exists w2, w3. split_and!.
  - exact Hfirst.
  - rewrite Hsecond, Hcalls2. reflexivity.
  - rewrite Hcalls3, Hcalls2, <- app_assoc. reflexivity.
  - exact Hinv.
  - rewrite Hsubs3, Hsubs2. reflexivity.
  - rewrite Hemit. reflexivity.
Defined.

Lemma requestAuthorization_flattens_witness :
  requestAuthorization Demo.native [Demo.stepCount; Demo.heartRate]
    (Some [Demo.stepCount]) initial_world
  = (Normal (Fulfilled true),
     with_calls
       (λ cs, cs ++ [CallRequestAuthorization
                       (<[Demo.stepCount := true]> ∅)
                       (<[Demo.stepCount := true]>
                          (<[Demo.heartRate := true]> ∅))])
       initial_world)
  ∧ presence_map [Demo.heartRate; Demo.stepCount]
    = presence_map [Demo.stepCount; Demo.heartRate]
  ∧ presence_map [Demo.stepCount; Demo.stepCount; Demo.heartRate]
    = presence_map [Demo.stepCount; Demo.heartRate].
Proof.
  destruct (requestAuthorization_flattens Demo.native
              [Demo.stepCount; Demo.heartRate] (Some [Demo.stepCount])
              initial_world)
    as (Hrequest & _ & _ & _ & _ & Hperm & Hdup).
  split_and!.
  - rewrite Hrequest. vm_compute. reflexivity.
  - apply Hperm. apply perm_swap.
  - apply Hdup. apply list_elem_of_here.
Defined.

Lemma deserialize_serialize_witness :
  Demo.sample !! "startDate" = Some (VDate (ValidDate 1704067200000))
  ∧ Demo.sample !! "endDate" = Some (VDate (ValidDate 1704153600000))
  ∧ round_trips strict_engine (ValidDate 1704067200000)
  ∧ round_trips strict_engine (ValidDate 1704153600000)
  ∧ serializeSample Demo.sample = Some Demo.raw_sample
  ∧ ∃ raw, serializeSample Demo.sample = Some raw ∧
           deserializeSample strict_engine raw = Demo.sample.
Proof.
  destruct (deserialize_serialize strict_engine Demo.sample)
    as (Hround & _ & _ & _ & Hvalid).
  pose proof (Hvalid 1704067200000 eq_refl) as Hstart.
  pose proof (Hvalid 1704153600000 eq_refl) as Hend.
  split_and!; [reflexivity | reflexivity | exact Hstart | exact Hend
              | vm_compute; reflexivity |].
  exact (Hround _ _ eq_refl eq_refl Hstart Hend).
Defined.

(** C4 as written fails: the start of the sample is no date, and
    [getLastSamples] resolves, with the Invalid Date as its start. *)
Lemma unparseable_date_resolves :
  Demo.odd_sample !! "startDate" = Some (VString "not a date")
  ∧ Date_parse strict_engine "not a date" = InvalidDate
  ∧ deserializeSample strict_engine Demo.odd_sample !! "startDate"
    = Some (VDate InvalidDate)
  ∧ (getLastSamples Demo.native strict_engine Demo.stepCount (Some 1)
       (Some "count") initial_world).1
    = Fulfilled [deserializeSample strict_engine Demo.odd_sample]
  ∧ ∀ e, (getLastSamples Demo.native strict_engine Demo.stepCount (Some 1)
            (Some "count") initial_world).1 ≠ Rejected e.
Proof. split_and!; [vm_compute; reflexivity.. | discriminate]. Qed.

Lemma unparseable_date_is_invalid_date_witness :
  Demo.odd_sample !! "startDate" = Some (VString "not a date")
  ∧ Date_parse strict_engine "not a date" = InvalidDate
  ∧ deserializeSample strict_engine Demo.odd_sample !! "startDate"
    = Some (VDate InvalidDate)
  ∧ (getLastSamples Demo.native strict_engine Demo.stepCount None
       (Some "count") initial_world).1
    = Fulfilled [deserializeSample strict_engine Demo.odd_sample].
Proof.
  destruct (unparseable_date_is_invalid_date Demo.native strict_engine
              Demo.odd_sample) as (Hstart & _ & _ & Hcaller).
  split_and!; [reflexivity | reflexivity | |].
  - exact (Hstart "not a date" eq_refl eq_refl).
  - exact (Hcaller Demo.stepCount None (Some "count") initial_world
             (Some "count") initial_world [] eq_refl eq_refl).
Defined.

Lemma getLastSample_first_witness :
  Native.getLastSamples Demo.refusing [] Demo.stepCount 1 (Some "count")
    = Fulfilled []
  ∧ (getLastSample Demo.refusing strict_engine Demo.stepCount (Some "count")
       initial_world).1 = Fulfilled None
  ∧ getLastSample Demo.native strict_engine Demo.stepCount (Some "count")
      initial_world
    = (Fulfilled (Some (deserializeSample strict_engine Demo.odd_sample)),
       with_calls
         (λ cs, cs ++ [CallGetLastSamples Demo.stepCount 1 (Some "count")])
         initial_world).
Proof.
  split; [reflexivity |]. split.
  - destruct (getLastSample_first Demo.refusing strict_engine Demo.stepCount
                (Some "count") initial_world) as (_ & _ & _ & Hempty).
    exact (Hempty (Some "count") initial_world eq_refl eq_refl).
  - destruct (getLastSample_first Demo.native strict_engine Demo.stepCount
                (Some "count") initial_world) as (_ & _ & Hfirst & _).
    exact (Hfirst (Some "count") initial_world [Demo.odd_sample]
             eq_refl eq_refl).
Defined.

Lemma getStatsBetween_normalizes_witness :
  let from := ValidDate 1704067200000 in
  let iso := "2024-01-01T00:00:00.000Z" in
  or_await (Some "count") (getPreferredUnit Demo.native Demo.stepCount)
    initial_world = (Fulfilled (Some "count"), initial_world)
  ∧ toISOString from = Some iso
  ∧ toISOString (or_now Demo.clock None initial_world).1 = Some iso
  ∧ Native.getStatsBetween Demo.native (calls initial_world) Demo.stepCount
      (Some "count") iso iso ["cumulativeSum"] = Fulfilled Demo.raw_stats
  ∧ ∃ response w',
      getStatsBetween Demo.native strict_engine Demo.clock Demo.stepCount
        ["cumulativeSum"] from None (Some "count") initial_world
        = (Fulfilled response, w') ∧
      response !! "sumQuantity" = Some (VNumber 1200) ∧
      response !! "averageQuantity" = None ∧
      response !! "mostRecentQuantityDateInterval" =
        Some (VObject (<["to" := VDate (ValidDate 1704153600000)]>
                         (<["from" := VDate (ValidDate 1704067200000)]> ∅))).
Proof.
  intros from iso.
  assert (toISOString from = Some iso) as Hfrom by (vm_compute; reflexivity).
  assert (toISOString (or_now Demo.clock None initial_world).1 = Some iso)
    as Hto by (vm_compute; reflexivity).
  split_and!; [reflexivity | exact Hfrom | exact Hto | reflexivity |].
  destruct (getStatsBetween_normalizes Demo.native strict_engine Demo.clock
              Demo.stepCount ["cumulativeSum"] from None (Some "count")
              initial_world (Some "count") initial_world iso iso
              Demo.raw_stats eq_refl Hfrom Hto eq_refl)
    as (response & w' & Hrun & Hother & _ & _ & Hinterval).
  exists response, w'. split_and!.
  - exact Hrun.
  - rewrite Hother by compute_done. reflexivity.
  - rewrite Hother by compute_done. reflexivity.
  - rewrite (Hinterval Demo.raw_interval "2024-01-01T00:00:00.000Z"
               "2024-01-02T00:00:00.000Z" eq_refl eq_refl eq_refl).
    vm_compute. reflexivity.
Defined.

Lemma save_defaults_witness :
  let options := Some {| start := None;
                         end_ := Some (ValidDate 1704153600000);
                         metadata := None |} in
  let iso := "2024-01-02T00:00:00.000Z" in
  toISOString (ValidDate 1704153600000) = Some iso
  ∧ (∃ w', save Demo.native Demo.clock Demo.stepCount "count" 1200 options
             initial_world
           = (Normal (Fulfilled true), w') ∧
           calls w' = [CallSave Demo.stepCount "count" 1200 iso iso
                         (VObject ∅)])
  ∧ ∃ w', save Demo.native Demo.clock Demo.stepCount "count" 1200 None
            initial_world
          = (Normal (Fulfilled true), w') ∧
          calls w' = [CallSave Demo.stepCount "count" 1200
                        "2024-01-01T00:00:00.000Z" "2024-01-01T00:00:01.000Z"
                        (VObject ∅)].
Proof.
  intros options iso.
  assert (toISOString (ValidDate 1704153600000) = Some iso) as Hiso
    by (vm_compute; reflexivity).
  split; [exact Hiso |]. split.
  - destruct (save_defaults Demo.native Demo.clock Demo.stepCount "count" 1200
                options initial_world) as (Hsave & _).
    exact (Hsave iso iso Hiso Hiso).
  - destruct (save_defaults Demo.native Demo.clock Demo.stepCount "count" 1200
                None initial_world) as (Hsave & _).
    refine (Hsave "2024-01-01T00:00:00.000Z" "2024-01-01T00:00:01.000Z" _ _);
      vm_compute; reflexivity.
Defined.

(** ** The rest of [index.ios.tsx] *)

Section DatesAcrossTheBridge.

Variable native : Native.t.
Variable engine_parse : string → Date.
Variable clock : nat → Z.

Lemma iso_string_parses t :
  in_range t = true → Date_parse engine_parse (iso_string t) = ValidDate t.
Proof. intros Ht. by apply JSDateFacts.Date_parse_toISOString. Qed.

(** Two time values in range with the same rendering are the same. *)
Lemma iso_string_inj t1 t2 :
  in_range t1 = true → in_range t2 = true →
  iso_string t1 = iso_string t2 → t1 = t2.
Proof.
  intros H1 H2 Heq.
  pose proof (JSDateFacts.parse_iso_iso_string t1 H1) as Hp1.
  rewrite Heq, JSDateFacts.parse_iso_iso_string in Hp1 by done.
  by injection Hp1.
Qed.

Lemma toISOString_parses d s :
  well_formed d → toISOString d = Some s → Date_parse engine_parse s = d.
Proof.
  destruct d as [t |]; [| done]. intros Ht [= <-]. by apply iso_string_parses.
Qed.

Lemma TimeClip_well_formed t : well_formed (TimeClip t).
Proof. unfold TimeClip. by destruct (in_range t) eqn:Ht. Qed.

Lemma or_now_well_formed to w :
  (∀ d, to = Some d → well_formed d) → well_formed (or_now clock to w).1.
Proof.
  intros Hgiven. destruct to as [d |]; cbn.
  - by apply Hgiven.
  - apply TimeClip_well_formed.
Qed.

(** X1. [getDateOfBirth] makes one bridge call and nothing else. A birth
    date that the native side sends in the complete ISO form is resolved as
    exactly that Date; a string that cannot be parsed still resolves, with
    the Invalid Date; a rejection of the bridge is passed on. *)
Theorem getDateOfBirth_resolves w :
  calls (getDateOfBirth native engine_parse w).2 = calls w ++ [CallGetDateOfBirth]
  ∧ (∀ t, in_range t = true →
       Native.getDateOfBirth native (calls w) = Fulfilled (iso_string t) →
       (getDateOfBirth native engine_parse w).1 = Fulfilled (ValidDate t))
  ∧ (∀ s, Native.getDateOfBirth native (calls w) = Fulfilled s →
       Date_parse engine_parse s = InvalidDate →
       (getDateOfBirth native engine_parse w).1 = Fulfilled InvalidDate)
  ∧ (∀ e, Native.getDateOfBirth native (calls w) = Rejected e →
       (getDateOfBirth native engine_parse w).1 = Rejected e).
Proof.
  unfold getDateOfBirth, Native_getDateOfBirth, await, bridge, resolve.
  split_and!.
  - by destruct (Native.getDateOfBirth native (calls w)).
  - intros t Ht ->. cbn. by rewrite iso_string_parses.
  - intros s -> Hs. cbn. by rewrite Hs.
  - by intros e ->.
Qed.

(** [getSamplesBetween], step by step. *)
Lemma getSamplesBetween_run identifier unit from to w :
  getSamplesBetween native engine_parse clock identifier unit from to w =
  let '(toDate, w1) := or_now clock to w in
  match toISOString from, toISOString toDate with
  | Some fromISO, Some toISO =>
      (match Native.getSamplesBetween native (calls w) identifier unit
               fromISO toISO with
       | Fulfilled raws => Fulfilled (deserializeSample engine_parse <$> raws)
       | Rejected e => Rejected e
       end,
       with_calls
         (λ cs, cs ++ [CallGetSamplesBetween identifier unit fromISO toISO]) w1)
  | _, _ => (Rejected RangeError, w1)
  end.
Proof.
  unfold getSamplesBetween, await at 1, effect.
  pose proof (or_now_calls clock to w) as Hcalls.
  destruct (or_now clock to w) as [toDate w1]. cbn [snd] in Hcalls.
  unfold toISOString_async, await, resolve, reject, Native_getSamplesBetween,
    bridge.
  destruct (toISOString from); [| done].
  destruct (toISOString toDate); [| done].
  rewrite Hcalls. by destruct (Native.getSamplesBetween _ _ _ _ _ _).
Qed.

(** X2. With dates that can be rendered, [getSamplesBetween] makes
    exactly one bridge call, with the unit exactly as it was given, empty
    or not (it never asks for the preferred unit), and with two strings
    that parse back to the two dates. It resolves with the raw samples
    deserialized one by one, passes a rejection on, and reads the clock
    once when [to] is omitted and not at all otherwise. *)
Theorem getSamplesBetween_passes_unit identifier unit from to w fromISO toISO :
  well_formed from → (∀ d, to = Some d → well_formed d) →
  toISOString from = Some fromISO →
  toISOString (or_now clock to w).1 = Some toISO →
  let call := CallGetSamplesBetween identifier unit fromISO toISO in
  let reply := Native.getSamplesBetween native (calls w) identifier unit
                 fromISO toISO in
  let run := getSamplesBetween native engine_parse clock identifier unit
               from to w in
  calls run.2 = calls w ++ [call]
  ∧ Date_parse engine_parse fromISO = from
  ∧ Date_parse engine_parse toISO = (or_now clock to w).1
  ∧ (∀ raws, reply = Fulfilled raws →
       run.1 = Fulfilled (deserializeSample engine_parse <$> raws))
  ∧ (∀ e, reply = Rejected e → run.1 = Rejected e)
  ∧ clock_reads run.2 = (clock_reads w + if to is Some _ then 0 else 1)%nat.
Proof.
  intros Hfrom Hgiven HfromISO HtoISO call reply run. subst run.
  rewrite getSamplesBetween_run.
  pose proof (or_now_calls clock to w) as Hcalls.
  pose proof (or_now_well_formed to w Hgiven) as HtoDate.
  assert (clock_reads (or_now clock to w).2
          = (clock_reads w + if to is Some _ then 0 else 1)%nat) as Hreads.
  { destruct to; cbn; lia. }
  destruct (or_now clock to w) as [toDate w1]. cbn [fst snd] in *.
  rewrite HfromISO, HtoISO. fold reply. cbn [fst snd].
  split_and!.
  - cbn. by rewrite Hcalls.
  - by apply toISOString_parses.
  - by apply toISOString_parses.
  - by intros raws ->.
  - by intros e ->.
  - done.
Qed.

(** X3. When [from] or the upper date (the given [to], or the current time)
    is the Invalid Date, [getSamplesBetween] rejects with a [RangeError]
    and makes no bridge call. *)
Theorem getSamplesBetween_invalid_date identifier unit from to w :
  toISOString from = None ∨ toISOString (or_now clock to w).1 = None →
  getSamplesBetween native engine_parse clock identifier unit from to w
  = (Rejected RangeError, (or_now clock to w).2)
  ∧ calls (getSamplesBetween native engine_parse clock identifier unit from
             to w).2 = calls w.
Proof.
  intros Hinvalid. rewrite getSamplesBetween_run.
  pose proof (or_now_calls clock to w) as Hcalls.
  destruct (or_now clock to w) as [toDate w1]. cbn [fst snd] in *.
  destruct Hinvalid as [-> | ->]; [done |].
  by destruct (toISOString from).
Qed.

End DatesAcrossTheBridge.

Section MoreOnSamples.

Variable native : Native.t.
Variable engine_parse : string → Date.
Variable clock : nat → Z.

(** X4. [deserializeSample] is idempotent: a sample that is deserialized
    already is left as it is. *)
Theorem deserializeSample_idempotent sample :
  deserializeSample engine_parse (deserializeSample engine_parse sample)
  = deserializeSample engine_parse sample.
Proof.
  apply map_eq. intros k.
  destruct (decide (k = "endDate")) as [-> | Hend].
  { rewrite (deserializeSample_endDate engine_parse (deserializeSample _ _)).
    unfold prop at 1. by rewrite deserializeSample_endDate. }
  destruct (decide (k = "startDate")) as [-> | Hstart].
  { rewrite (deserializeSample_startDate engine_parse (deserializeSample _ _)).
    unfold prop at 1. by rewrite deserializeSample_startDate. }
  by rewrite deserializeSample_other.
Qed.

(** X5. The result of [deserializeSample] always has [startDate] and
    [endDate]: a date property that the raw sample lacks is added as the
    Invalid Date, and no other property is added or removed. *)
Theorem deserializeSample_missing_date sample :
  (sample !! "startDate" = None →
   deserializeSample engine_parse sample !! "startDate"
     = Some (VDate InvalidDate))
  ∧ (sample !! "endDate" = None →
     deserializeSample engine_parse sample !! "endDate"
       = Some (VDate InvalidDate))
  ∧ dom (deserializeSample engine_parse sample)
    = {["startDate"; "endDate"]} ∪ dom sample.
Proof.
  split_and!.
  - intros Hnone. rewrite deserializeSample_startDate. unfold prop.
    by rewrite Hnone.
  - intros Hnone. rewrite deserializeSample_endDate. unfold prop.
    by rewrite Hnone.
  - unfold deserializeSample.
    by rewrite !dom_insert_L, (assoc_L (∪)), (comm_L (∪) {["endDate"]}).
Qed.

(** X14. Dates survive the bridge. [save] with a start and an end in range
    reads no clock and sends two strings such that any raw sample that
    carries them is deserialized to the very start and end that were
    saved. *)
Theorem save_dates_come_back identifier unit value tStart tEnd given w :
  in_range tStart = true → in_range tEnd = true →
  let options := Some {| start := Some (ValidDate tStart);
                         end_ := Some (ValidDate tEnd);
                         metadata := given |} in
  ∃ startISO endISO sent w',
    save native clock identifier unit value options w =
      (Normal (Native.save native (calls w) identifier unit value startISO
                 endISO sent), w') ∧
    calls w' = calls w ++
      [CallSave identifier unit value startISO endISO sent] ∧
    clock_reads w' = clock_reads w ∧
    ∀ raw, raw !! "startDate" = Some (VString startISO) →
           raw !! "endDate" = Some (VString endISO) →
           deserializeSample engine_parse raw !! "startDate"
             = Some (VDate (ValidDate tStart)) ∧
           deserializeSample engine_parse raw !! "endDate"
             = Some (VDate (ValidDate tEnd)).
Proof.
  intros Hstart Hend options.
  exists (iso_string tStart), (iso_string tEnd).
  unfold save, returns, Native_save, bridge. cbn.
  do 2 eexists. split_and!; try done.
  intros raw Hs He.
  rewrite deserializeSample_startDate, deserializeSample_endDate.
  unfold prop. rewrite Hs, He. cbn.
  by rewrite !iso_string_parses.
Qed.

(** X15. [save] without a start and without an end reads the clock twice,
    first for the start and then for the end; when the clock has moved
    between the two readings, the start and end strings it sends differ. *)
Theorem save_reads_clock_twice identifier unit value options w :
  options ≫= start = None → options ≫= end_ = None →
  in_range (clock (clock_reads w)) = true →
  in_range (clock (S (clock_reads w))) = true →
  ∃ sent w',
    save native clock identifier unit value options w =
      (Normal (Native.save native (calls w) identifier unit value
                 (iso_string (clock (clock_reads w)))
                 (iso_string (clock (S (clock_reads w)))) sent), w') ∧
    clock_reads w' = S (S (clock_reads w)) ∧
    (clock (clock_reads w) ≠ clock (S (clock_reads w)) →
     iso_string (clock (clock_reads w))
       ≠ iso_string (clock (S (clock_reads w)))).
Proof.
  intros Hstart Hend Hnow1 Hnow2.
  unfold save. rewrite Hstart, Hend. cbn [or_else or_now Date_now clock_reads].
  unfold TimeClip. rewrite Hnow1, Hnow2. cbn [toISOString].
  unfold returns, Native_save, bridge. cbn.
  do 2 eexists. split_and!; try done.
  intros Hne Heq. by apply Hne, iso_string_inj.
Qed.

End MoreOnSamples.

Section Rejections.

Variable native : Native.t.
Variable engine_parse : string → Date.
Variable clock : nat → Z.

Lemma or_await_rejected unit identifier w e :
  unit = None ∨ unit = Some "" →
  Native.getPreferredUnits native (calls w) [identifier] = Rejected e →
  or_await unit (getPreferredUnit native identifier) w =
  (Rejected e, with_calls (λ cs, cs ++ [CallGetPreferredUnits [identifier]]) w).
Proof.
  intros Hunit Hreply. rewrite or_await_omitted by done.
  by rewrite getPreferredUnit_run, Hreply.
Qed.

(** X6. When the unit is omitted (or empty) and the [getPreferredUnits]
    call is rejected, [getLastSamples], [getLastSample], [on] and
    [getStatsBetween] reject with that error after that one call: no
    further call is made, no listener is registered and the clock is not
    read. *)
Theorem preferred_unit_rejection_ends_the_operation
    identifier limit callback options from to unit w e :
  unit = None ∨ unit = Some "" →
  Native.getPreferredUnits native (calls w) [identifier] = Rejected e →
  let w' := with_calls (λ cs, cs ++ [CallGetPreferredUnits [identifier]]) w in
  getLastSamples native engine_parse identifier limit unit w = (Rejected e, w')
  ∧ getLastSample native engine_parse identifier unit w = (Rejected e, w')
  ∧ on native identifier callback unit w = (Rejected e, w')
  ∧ getStatsBetween native engine_parse clock identifier options from to unit w
    = (Rejected e, w').
Proof.
  intros Hunit Hreply w'.
  pose proof (or_await_rejected unit identifier w e Hunit Hreply) as Hrun.
  fold w' in Hrun.
  assert (getLastSamples native engine_parse identifier limit unit w
          = (Rejected e, w')) as Hsamples.
  { unfold getLastSamples, await at 1. by rewrite Hrun. }
  split_and!.
  - done.
  - unfold getLastSample, await at 1, getLastSamples, await at 1.
    by rewrite Hrun.
  - by rewrite on_run, Hrun.
  - unfold getStatsBetween, await at 1. by rewrite Hrun.
Qed.

(** [getStatsBetween], step by step, once the unit is known. *)
Lemma getStatsBetween_run identifier options from to unit w actualUnit w1 :
  or_await unit (getPreferredUnit native identifier) w
    = (Fulfilled actualUnit, w1) →
  getStatsBetween native engine_parse clock identifier options from to unit w =
  let '(toDate, w2) := or_now clock to w1 in
  match toISOString from, toISOString toDate with
  | Some fromISO, Some toISO =>
      (match Native.getStatsBetween native (calls w1) identifier actualUnit
               fromISO toISO options with
       | Fulfilled raw =>
           let interval := prop raw "mostRecentQuantityDateInterval" in
           Fulfilled
             (spread (delete "mostRecentQuantityDateInterval" raw)
                (if truthy interval then
                   {[ "mostRecentQuantityDateInterval" :=
                        VObject
                          (<["to" := VDate (Date_new engine_parse
                                              (get interval "to"))]>
                             (<["from" := VDate (Date_new engine_parse
                                                   (get interval "from"))]>
                                ∅)) ]}
                 else ∅))
       | Rejected e => Rejected e
       end,
       with_calls
         (λ cs, cs ++ [CallGetStatsBetween identifier actualUnit fromISO toISO
                         options]) w2)
  | _, _ => (Rejected RangeError, w2)
  end.
Proof.
  intros Hunit. unfold getStatsBetween, await at 1. rewrite Hunit.
  unfold await at 1, effect.
  pose proof (or_now_calls clock to w1) as Hcalls.
  destruct (or_now clock to w1) as [toDate w2]. cbn [snd] in Hcalls.
  unfold toISOString_async, await, resolve, reject, Native_getStatsBetween,
    bridge.
  destruct (toISOString from); [| done].
  destruct (toISOString toDate); [| done].
  rewrite Hcalls. by destruct (Native.getStatsBetween _ _ _ _ _ _ _).
Qed.

(** X7. Once the unit is resolved, a rejection of the query call is the
    rejection of the operation, with the same error: for [getLastSamples],
    for [getLastSample], and for [getStatsBetween] when its dates can be
    rendered. *)
Theorem bridge_rejection_is_passed_on
    identifier limit options from to unit w actualUnit w1 e :
  or_await unit (getPreferredUnit native identifier) w
    = (Fulfilled actualUnit, w1) →
  (Native.getLastSamples native (calls w1) identifier (default 1 limit)
     actualUnit = Rejected e →
   (getLastSamples native engine_parse identifier limit unit w).1 = Rejected e)
  ∧ (Native.getLastSamples native (calls w1) identifier 1 actualUnit
       = Rejected e →
     (getLastSample native engine_parse identifier unit w).1 = Rejected e)
  ∧ (∀ fromISO toISO,
       toISOString from = Some fromISO →
       toISOString (or_now clock to w1).1 = Some toISO →
       Native.getStatsBetween native (calls w1) identifier actualUnit fromISO
         toISO options = Rejected e →
       (getStatsBetween native engine_parse clock identifier options from to
          unit w).1 = Rejected e).
Proof.
  intros Hunit.
  assert (∀ limit',
    Native.getLastSamples native (calls w1) identifier (default 1 limit')
      actualUnit = Rejected e →
    (getLastSamples native engine_parse identifier limit' unit w).1
      = Rejected e) as Hsamples.
  { intros limit' Hreply. unfold getLastSamples, await at 1. rewrite Hunit.
    unfold await, Native_getLastSamples, bridge. by rewrite Hreply. }
  split_and!.
  - apply Hsamples.
  - intros Hreply. specialize (Hsamples (Some 1) Hreply).
    unfold getLastSample, await at 1.
    by destruct (getLastSamples _ _ _ _ _ _) as [[samples | e'] w'];
      simplify_eq/=.
  - intros fromISO toISO Hfrom Hto Hreply.
    rewrite (getStatsBetween_run _ _ _ _ _ _ _ _ Hunit).
    destruct (or_now clock to w1) as [toDate w2]. cbn [fst] in Hto.
    by rewrite Hfrom, Hto, Hreply.
Qed.

(** X13. When [from] or the upper date of [getStatsBetween] is the Invalid
    Date, it rejects with a [RangeError] and makes no statistics call; the
    date is looked at only after the unit is resolved, so with an omitted
    unit the [getPreferredUnits] call has been made by then. *)
Theorem getStatsBetween_invalid_date
    identifier options from to unit w actualUnit w1 :
  or_await unit (getPreferredUnit native identifier) w
    = (Fulfilled actualUnit, w1) →
  toISOString from = None ∨ toISOString (or_now clock to w1).1 = None →
  getStatsBetween native engine_parse clock identifier options from to unit w
    = (Rejected RangeError, (or_now clock to w1).2)
  ∧ calls (getStatsBetween native engine_parse clock identifier options from
             to unit w).2 = calls w1
  ∧ (unit = None ∨ unit = Some "" →
     calls w1 = calls w ++ [CallGetPreferredUnits [identifier]]).
Proof.
  intros Hunit Hinvalid.
  rewrite (getStatsBetween_run _ _ _ _ _ _ _ _ Hunit).
  pose proof (or_now_calls clock to w1) as Hcalls.
  destruct (or_now clock to w1) as [toDate w2]. cbn [fst snd] in *.
  split_and!.
  - destruct Hinvalid as [-> | ->]; [done |]. by destruct (toISOString from).
  - destruct Hinvalid as [-> | ->]; [done |]. by destruct (toISOString from).
  - intros Homitted. rewrite or_await_omitted in Hunit by done.
    rewrite getPreferredUnit_run in Hunit. by injection Hunit as _ <-.
Qed.

(** X12. What [getStatsBetween] does with an interval that is not as
    typed. A falsy value ([null], [false], [0], the empty string) is
    dropped: the response has no such property. A truthy value that is no
    object becomes an interval of two Invalid Dates. An object becomes an
    object with exactly the properties [from] and [to], whatever else it
    had. *)
Theorem getStatsBetween_odd_interval
    identifier options from to unit w actualUnit w1 fromISO toISO raw value :
  or_await unit (getPreferredUnit native identifier) w
    = (Fulfilled actualUnit, w1) →
  toISOString from = Some fromISO →
  toISOString (or_now clock to w1).1 = Some toISO →
  Native.getStatsBetween native (calls w1) identifier actualUnit fromISO toISO
    options = Fulfilled raw →
  raw !! "mostRecentQuantityDateInterval" = Some value →
  ∃ response,
    (getStatsBetween native engine_parse clock identifier options from to
       unit w).1 = Fulfilled response ∧
    (truthy value = false →
     response !! "mostRecentQuantityDateInterval" = None) ∧
    (truthy value = true → (∀ o, value ≠ VObject o) →
     response !! "mostRecentQuantityDateInterval" =
     Some (VObject (<["to" := VDate InvalidDate]>
                      (<["from" := VDate InvalidDate]> ∅)))) ∧
    (∀ o, value = VObject o →
     ∃ interval, response !! "mostRecentQuantityDateInterval"
                   = Some (VObject interval) ∧
                 dom interval = {["from"; "to"]}).
Proof.
  intros Hunit Hfrom Hto Hreply Hvalue.
  rewrite (getStatsBetween_run _ _ _ _ _ _ _ _ Hunit).
  destruct (or_now clock to w1) as [toDate w2]. cbn [fst] in Hto.
  rewrite Hfrom, Hto, Hreply. cbn [fst].
  eexists. split; [done |]. unfold spread, prop. rewrite Hvalue.
  cbn [default from_option id]. split_and!.
  - intros ->. by rewrite lookup_union_r, lookup_delete_eq.
  - intros -> Hprimitive.
    rewrite lookup_union_l', lookup_singleton_eq
      by (by rewrite lookup_singleton_eq).
    by destruct value; try done; [exfalso; by eapply Hprimitive].
  - intros o ->. cbn [truthy].
    rewrite lookup_union_l', lookup_singleton_eq
      by (by rewrite lookup_singleton_eq).
    eexists. split; [done |].
    by rewrite !dom_insert_L, dom_empty_L, (right_id_L ∅ (∪)), (comm_L (∪)).
Qed.

End Rejections.

Section MoreOnSubscriptions.

Variable native : Native.t.
Variable engine_parse : string → Date.

(** What a resolved [on] has done to the emitter. *)
Lemma on_fulfilled identifier callback unit w u w1 :
  on native identifier callback unit w = (Fulfilled u, w1) →
  subscriptions w1 =
    subscriptions w ++
    [{| sub_key := unsub_subscription u; sub_eventType := "onQueryUpdated";
        sub_listener := {| listener_identifier := identifier;
                           listener_callback := callback |} |}]
  ∧ unsub_subscription u = next_key w
  ∧ next_key w1 = S (next_key w)
  ∧ invocations w1 = invocations w
  ∧ clock_reads w1 = clock_reads w.
Proof.
  rewrite on_run.
  pose proof (or_await_emitter native unit identifier w) as (Hsubs & Hkey & Hinv).
  assert (clock_reads (or_await unit (getPreferredUnit native identifier) w).2
          = clock_reads w) as Hreads.
  { unfold or_await.
    destruct unit as [u' |]; [destruct (truthy (VString u')); [done |] |];
      by rewrite getPreferredUnit_run. }
  destruct (or_await _ _ w) as [[actualUnit | e] w']; cbn in *; [| done].
  destruct (Native.observe _ _ _ _); intros [= <- <-]; cbn.
  by rewrite Hsubs, Hkey, Hinv, Hreads.
Qed.

(** X8. Subscribing and unsubscribing undo each other on the emitter:
    with fresh keys, after [on] has resolved with [u] and [u] is called,
    the subscriptions are those from before [on], no callback was invoked,
    and every event is delivered as if [on] had not been called. *)
Theorem subscribe_then_unsubscribe identifier callback unit w u w1 :
  fresh_keys w →
  on native identifier callback unit w = (Fulfilled u, w1) →
  ∃ w2,
    unsubscribe native u w1 =
      (Normal (Native.stopObserving native (calls w1) (unsub_queryId u)), w2) ∧
    subscriptions w2 = subscriptions w ∧
    invocations w2 = invocations w ∧
    ∀ eventType ev,
      invocations (emit engine_parse eventType ev w2)
      = invocations (emit engine_parse eventType ev w).
Proof.
  intros Hfresh Hon.
  destruct (on_fulfilled _ _ _ _ _ _ Hon) as (Hsubs & Hkey & _ & Hinv & _).
  exists (unsubscribe native u w1).2.
  assert (subscriptions (unsubscribe native u w1).2 = subscriptions w) as Hback.
  { unfold unsubscribe, returns, Native_stopObserving, bridge, remove. cbn.
    rewrite Hsubs, filter_added, Hkey. by apply filter_fresh. }
  assert (invocations (unsubscribe native u w1).2 = invocations w) as Hsame.
  { unfold unsubscribe, returns, Native_stopObserving, bridge, remove. cbn.
    done. }
  split_and!; [done.. |].
  intros eventType ev. by rewrite !emit_invocations, Hback, Hsame.
Qed.

(** X9. Unsubscribing one subscription leaves the others: after two calls
    of [on] have resolved, with fresh keys, the two subscriptions have
    different keys, and once the first is unsubscribed the second is still
    registered; an event invokes its callback exactly when the event has
    its identifier. *)
Theorem unsubscribe_leaves_the_others
    identifier1 callback1 unit1 identifier2 callback2 unit2 w u1 w1 u2 w2 :
  fresh_keys w →
  on native identifier1 callback1 unit1 w = (Fulfilled u1, w1) →
  on native identifier2 callback2 unit2 w1 = (Fulfilled u2, w2) →
  let w3 := (unsubscribe native u1 w2).2 in
  unsub_subscription u1 ≠ unsub_subscription u2
  ∧ subscriptions w3 =
      subscriptions w ++
      [{| sub_key := unsub_subscription u2; sub_eventType := "onQueryUpdated";
          sub_listener := {| listener_identifier := identifier2;
                             listener_callback := callback2 |} |}]
  ∧ ∀ ev,
      invocations (emit engine_parse "onQueryUpdated" ev w3) =
      invocations (emit engine_parse "onQueryUpdated" ev w) ++
      (if decide (typeIdentifier ev = identifier2) then
         [{| invoked := callback2;
             invoked_with := deserializeSample engine_parse <$> samples ev |}]
       else []).
Proof.
  intros Hfresh Hon1 Hon2 w3.
  destruct (on_fulfilled _ _ _ _ _ _ Hon1) as (Hsubs1 & Hkey1 & Hnext1 & Hinv1 & _).
  destruct (on_fulfilled _ _ _ _ _ _ Hon2) as (Hsubs2 & Hkey2 & _ & Hinv2 & _).
  assert (unsub_subscription u1 ≠ unsub_subscription u2) as Hne by lia.
  assert (subscriptions w3 =
          subscriptions w ++
          [{| sub_key := unsub_subscription u2;
              sub_eventType := "onQueryUpdated";
              sub_listener := {| listener_identifier := identifier2;
                                 listener_callback := callback2 |} |}])
    as Hsubs3.
  { subst w3. unfold unsubscribe, returns, Native_stopObserving, bridge, remove.
    cbn. rewrite Hsubs2, Hsubs1, filter_app, filter_added.
    rewrite filter_cons_True by done. rewrite filter_nil.
    f_equal. rewrite Hkey1. by apply filter_fresh. }
  split_and!; [done.. |].
  intros ev. rewrite !emit_invocations, Hsubs3, flat_map_app.
  assert (invocations w3 = invocations w) as ->.
  { subst w3. unfold unsubscribe, returns, Native_stopObserving, bridge, remove.
    cbn. by rewrite Hinv2. }
  rewrite app_assoc. f_equal. cbn. unfold invocations_of. cbn.
  rewrite decide_True by done. apply app_nil_r.
Qed.

(** X10. The delivery of an event only invokes callbacks: it makes no
    bridge call, registers and removes no listener and reads no clock. An
    event of a type other than [onQueryUpdated] does not invoke the callback
    given to [on]. *)
Theorem events_only_invoke_callbacks eventType ev w :
  let w' := emit engine_parse eventType ev w in
  calls w' = calls w ∧ subscriptions w' = subscriptions w
  ∧ next_key w' = next_key w ∧ clock_reads w' = clock_reads w
  ∧ ∀ identifier callback unit w0 u,
      on native identifier callback unit w0 = (Fulfilled u, w) →
      eventType ≠ "onQueryUpdated" →
      invocations w' = invocations (emit engine_parse eventType ev w0).
Proof.
  intros w'. subst w'. unfold emit at 1 2 3 4.
  destruct (emit_run engine_parse eventType ev (subscriptions w) w)
    as (_ & Hcalls & Hsubs & Hkey & Hreads).
  split_and!; [done.. |].
  intros identifier callback unit w0 u Hon Hother.
  destruct (on_fulfilled _ _ _ _ _ _ Hon) as (Hsubs0 & _ & _ & Hinv & _).
  rewrite !emit_invocations, Hsubs0, Hinv, flat_map_app. cbn.
  unfold invocations_of at 2. cbn.
  rewrite decide_False by done. by rewrite !app_nil_r.
Qed.

Lemma emit_all_run (evs : list QueryUpdated) : ∀ w,
  let w' := foldl (λ w ev, emit engine_parse "onQueryUpdated" ev w) w evs in
  subscriptions w' = subscriptions w ∧
  invocations w' =
    invocations w ++
    flat_map (λ ev, flat_map (invocations_of engine_parse "onQueryUpdated" ev)
                      (subscriptions w)) evs.
Proof.
  induction evs as [| ev evs IH]; intros w; cbn [foldl flat_map].
  - by rewrite app_nil_r.
  - destruct (IH (emit engine_parse "onQueryUpdated" ev w)) as [-> ->].
    destruct (emit_run engine_parse "onQueryUpdated" ev (subscriptions w) w)
      as (_ & _ & Hsubs & _).
    unfold emit at 1 3. rewrite Hsubs. split; [done |].
    by rewrite emit_invocations, <- app_assoc.
Qed.

(** X11. When [on] has resolved and no other listener is registered, a
    sequence of [onQueryUpdated] events invokes the callback once for each
    event with the identifier of the subscription, in the order of arrival,
    each time with the deserialized samples of that event, and never for
    another event. *)
Theorem matching_events_in_order identifier callback unit w u w1 evs :
  subscriptions w = [] →
  on native identifier callback unit w = (Fulfilled u, w1) →
  invocations (foldl (λ w ev, emit engine_parse "onQueryUpdated" ev w) w1 evs)
  = invocations w ++
    ((λ ev, {| invoked := callback;
               invoked_with := deserializeSample engine_parse <$> samples ev |})
       <$> filter (λ ev, typeIdentifier ev = identifier) evs).
Proof.
  intros Hnone Hon.
  destruct (on_fulfilled _ _ _ _ _ _ Hon) as (Hsubs & _ & _ & Hinv & _).
  destruct (emit_all_run evs w1) as [_ ->].
  rewrite Hinv, Hsubs, Hnone, app_nil_l. f_equal.
  rewrite (flat_map_ext _
             (λ ev, if decide (typeIdentifier ev = identifier) then
                      [{| invoked := callback;
                          invoked_with :=
                            deserializeSample engine_parse <$> samples ev |}]
                    else [])).
  2:{ intros ev. cbn [flat_map]. rewrite app_nil_r. unfold invocations_of.
      cbn [sub_eventType sub_listener listener_identifier listener_callback].
      by rewrite decide_True. }
  induction evs as [| ev evs IH]; [done |]. cbn [flat_map].
  rewrite IH. destruct (decide (typeIdentifier ev = identifier)).
  - by rewrite filter_cons_True.
  - by rewrite filter_cons_False.
Qed.

End MoreOnSubscriptions.

(** ** The rest of the functions at work *)

Lemma getDateOfBirth_resolves_witness :
  in_range 642902400000 = true
  ∧ Native.getDateOfBirth Demo.native [] = Fulfilled (iso_string 642902400000)
  ∧ (getDateOfBirth Demo.native strict_engine initial_world).1
    = Fulfilled (ValidDate 642902400000)
  ∧ Date_parse strict_engine "17 May 1990" = InvalidDate
  ∧ (getDateOfBirth Faulty.odd strict_engine initial_world).1
    = Fulfilled InvalidDate
  ∧ (getDateOfBirth Faulty.native strict_engine initial_world).1
    = Rejected Faulty.unavailable.
Proof.
  assert (Native.getDateOfBirth Demo.native [] = Fulfilled (iso_string 642902400000))
    as Hsent by (vm_compute; reflexivity).
  split_and!; [reflexivity | exact Hsent | | reflexivity | |].
  - destruct (getDateOfBirth_resolves Demo.native strict_engine initial_world)
      as (_ & Hiso & _).
    exact (Hiso 642902400000 eq_refl Hsent).
  - destruct (getDateOfBirth_resolves Faulty.odd strict_engine initial_world)
      as (_ & _ & Hodd & _).
    exact (Hodd "17 May 1990" eq_refl eq_refl).
  - destruct (getDateOfBirth_resolves Faulty.native strict_engine initial_world)
      as (_ & _ & _ & Hrejected).
    exact (Hrejected Faulty.unavailable eq_refl).
Defined.

Lemma getSamplesBetween_passes_unit_witness :
  let from := ValidDate 1704067200000 in
  let fromISO := "2024-01-01T00:00:00.000Z" in
  let run := getSamplesBetween Demo.native strict_engine Demo.clock
               Demo.stepCount "" from None initial_world in
  well_formed from
  ∧ toISOString from = Some fromISO
  ∧ toISOString (or_now Demo.clock None initial_world).1 = Some fromISO
  ∧ calls run.2 = [CallGetSamplesBetween Demo.stepCount "" fromISO fromISO]
  ∧ Date_parse strict_engine fromISO = from
  ∧ run.1 = Fulfilled [deserializeSample strict_engine Demo.raw_sample]
  ∧ clock_reads run.2 = 1%nat.
Proof.
  intros from fromISO run.
  assert (toISOString from = Some fromISO) as Hfrom
    by (vm_compute; reflexivity).
  assert (toISOString (or_now Demo.clock None initial_world).1 = Some fromISO)
    as Hto by (vm_compute; reflexivity).
  destruct (getSamplesBetween_passes_unit Demo.native strict_engine Demo.clock
              Demo.stepCount "" from None initial_world fromISO fromISO
              eq_refl ltac:(discriminate) Hfrom Hto)
    as (Hcalls & Hparse & _ & Hfulfilled & _ & Hreads).
  split_and!; [reflexivity | exact Hfrom | exact Hto | exact Hcalls
              | exact Hparse | | exact Hreads].
  exact (Hfulfilled [Demo.raw_sample] eq_refl).
Defined.

Lemma getSamplesBetween_invalid_date_witness :
  toISOString InvalidDate = None
  ∧ getSamplesBetween Demo.native strict_engine Demo.clock Demo.stepCount
      "count" InvalidDate (Some (ValidDate 0)) initial_world
    = (Rejected RangeError, initial_world)
  ∧ calls (getSamplesBetween Demo.native strict_engine Demo.clock
             Demo.stepCount "count" InvalidDate (Some (ValidDate 0))
             initial_world).2 = [].
Proof.
  split; [reflexivity |].
  exact (getSamplesBetween_invalid_date Demo.native strict_engine Demo.clock
           Demo.stepCount "count" InvalidDate (Some (ValidDate 0))
           initial_world (or_introl eq_refl)).
Defined.

Lemma deserializeSample_missing_date_witness :
  (∅ : JSObject) !! "startDate" = None
  ∧ deserializeSample strict_engine ∅ !! "startDate" = Some (VDate InvalidDate)
  ∧ deserializeSample strict_engine ∅ !! "endDate" = Some (VDate InvalidDate).
Proof.
  destruct (deserializeSample_missing_date strict_engine ∅)
    as (Hstart & Hend & _).
  split_and!; [reflexivity | exact (Hstart eq_refl) | exact (Hend eq_refl)].
Defined.

Lemma save_dates_come_back_witness :
  in_range 1704067200000 = true ∧ in_range 1704153600000 = true
  ∧ ∃ startISO endISO sent w',
      save Demo.native Demo.clock Demo.stepCount "count" 1200
        (Some {| start := Some (ValidDate 1704067200000);
                 end_ := Some (ValidDate 1704153600000);
                 metadata := None |}) initial_world
      = (Normal (Native.save Demo.native (calls initial_world) Demo.stepCount
                   "count" 1200 startISO endISO sent), w') ∧
      calls w' = calls initial_world ++
        [CallSave Demo.stepCount "count" 1200 startISO endISO sent] ∧
      clock_reads w' = clock_reads initial_world ∧
      ∀ raw, raw !! "startDate" = Some (VString startISO) →
             raw !! "endDate" = Some (VString endISO) →
             deserializeSample strict_engine raw !! "startDate"
               = Some (VDate (ValidDate 1704067200000)) ∧
             deserializeSample strict_engine raw !! "endDate"
               = Some (VDate (ValidDate 1704153600000)).
Proof.
  split; [reflexivity |]. split; [reflexivity |].
  exact (save_dates_come_back Demo.native strict_engine Demo.clock
           Demo.stepCount "count" 1200 1704067200000 1704153600000 None
           initial_world eq_refl eq_refl).
Defined.

Lemma save_reads_clock_twice_witness :
  in_range (Demo.clock 0) = true ∧ in_range (Demo.clock 1) = true
  ∧ Demo.clock 0 ≠ Demo.clock 1
  ∧ ∃ sent w',
      save Demo.native Demo.clock Demo.stepCount "count" 1200 None
        initial_world
      = (Normal (Native.save Demo.native [] Demo.stepCount "count" 1200
                   (iso_string (Demo.clock 0)) (iso_string (Demo.clock 1))
                   sent), w') ∧
      clock_reads w' = 2%nat ∧
      iso_string (Demo.clock 0) ≠ iso_string (Demo.clock 1).
Proof.
  assert (Demo.clock 0 ≠ Demo.clock 1) as Hmoved by compute_done.
  split_and!; [reflexivity | reflexivity | exact Hmoved |].
  destruct (save_reads_clock_twice Demo.native Demo.clock Demo.stepCount
              "count" 1200 None initial_world eq_refl eq_refl eq_refl eq_refl)
    as (sent & w' & Hsave & Hreads & Hdiffer).
  exists sent, w'. split_and!; [exact Hsave | exact Hreads |].
  exact (Hdiffer Hmoved).
Defined.

Lemma preferred_unit_rejection_ends_the_operation_witness :
  let w' := with_calls (λ cs, cs ++ [CallGetPreferredUnits [Demo.stepCount]])
              Demo.busy_world in
  Native.getPreferredUnits Faulty.native (calls Demo.busy_world)
    [Demo.stepCount] = Rejected Faulty.unavailable
  ∧ getLastSamples Faulty.native strict_engine Demo.stepCount None None
      Demo.busy_world = (Rejected Faulty.unavailable, w')
  ∧ on Faulty.native Demo.stepCount Demo.callback None Demo.busy_world
    = (Rejected Faulty.unavailable, w')
  ∧ subscriptions w' = subscriptions Demo.busy_world.
Proof.
  intros w'. split; [reflexivity |].
  destruct (preferred_unit_rejection_ends_the_operation Faulty.native
              strict_engine Demo.clock Demo.stepCount None Demo.callback []
              (ValidDate 0) None None Demo.busy_world Faulty.unavailable
              (or_introl eq_refl) eq_refl) as (Hsamples & _ & Hon & _).
  split_and!; [exact Hsamples | exact Hon | reflexivity].
Defined.

Lemma bridge_rejection_is_passed_on_witness :
  or_await (Some "count") (getPreferredUnit Faulty.native Demo.stepCount)
    initial_world = (Fulfilled (Some "count"), initial_world)
  ∧ Native.getLastSamples Faulty.native [] Demo.stepCount 1 (Some "count")
    = Rejected Faulty.unavailable
  ∧ (getLastSamples Faulty.native strict_engine Demo.stepCount None
       (Some "count") initial_world).1 = Rejected Faulty.unavailable
  ∧ (getLastSample Faulty.native strict_engine Demo.stepCount (Some "count")
       initial_world).1 = Rejected Faulty.unavailable
  ∧ (getStatsBetween Faulty.native strict_engine Demo.clock Demo.stepCount
       ["cumulativeSum"] (ValidDate 0) (Some (ValidDate 0)) (Some "count")
       initial_world).1 = Rejected Faulty.unavailable.
Proof.
  split; [reflexivity |]. split; [reflexivity |].
  destruct (bridge_rejection_is_passed_on Faulty.native strict_engine
              Demo.clock Demo.stepCount None ["cumulativeSum"] (ValidDate 0)
              (Some (ValidDate 0)) (Some "count") initial_world (Some "count")
              initial_world Faulty.unavailable eq_refl)
    as (Hsamples & Hsample & Hstats).
  split_and!; [exact (Hsamples eq_refl) | exact (Hsample eq_refl) |].
  exact (Hstats (iso_string 0) (iso_string 0) eq_refl eq_refl eq_refl).
Defined.

Lemma getStatsBetween_invalid_date_witness :
  let w1 := with_calls (λ cs, cs ++ [CallGetPreferredUnits [Demo.stepCount]])
              initial_world in
  or_await None (getPreferredUnit Demo.native Demo.stepCount) initial_world
    = (Fulfilled (Some "count"), w1)
  ∧ toISOString InvalidDate = None
  ∧ getStatsBetween Demo.native strict_engine Demo.clock Demo.stepCount
      ["cumulativeSum"] InvalidDate (Some (ValidDate 0)) None initial_world
    = (Rejected RangeError, w1)
  ∧ calls w1 = [CallGetPreferredUnits [Demo.stepCount]].
Proof.
  intros w1.
  assert (or_await None (getPreferredUnit Demo.native Demo.stepCount)
            initial_world = (Fulfilled (Some "count"), w1)) as Hunit
    by reflexivity.
  split_and!; [exact Hunit | reflexivity | | reflexivity].
  destruct (getStatsBetween_invalid_date Demo.native strict_engine Demo.clock
              Demo.stepCount ["cumulativeSum"] InvalidDate
              (Some (ValidDate 0)) None initial_world (Some "count") w1 Hunit
              (or_introl eq_refl)) as (Hrun & _).
  exact Hrun.
Defined.

Lemma getStatsBetween_odd_interval_witness :
  Faulty.null_stats !! "mostRecentQuantityDateInterval" = Some VNull
  ∧ truthy VNull = false
  ∧ ∃ response,
      (getStatsBetween Faulty.odd strict_engine Demo.clock Demo.stepCount
         ["cumulativeSum"] (ValidDate 0) (Some (ValidDate 0)) (Some "count")
         initial_world).1 = Fulfilled response ∧
      response !! "mostRecentQuantityDateInterval" = None.
Proof.
  split; [reflexivity |]. split; [reflexivity |].
  destruct (getStatsBetween_odd_interval Faulty.odd strict_engine Demo.clock
              Demo.stepCount ["cumulativeSum"] (ValidDate 0)
              (Some (ValidDate 0)) (Some "count") initial_world (Some "count")
              initial_world (iso_string 0) (iso_string 0) Faulty.null_stats
              VNull eq_refl eq_refl eq_refl eq_refl eq_refl)
    as (response & Hrun & Hfalsy & _).
  exists response. split; [exact Hrun | exact (Hfalsy eq_refl)].
Defined.

Lemma fresh_keys_busy_world : fresh_keys Demo.busy_world.
Proof. repeat constructor. Qed.

Lemma subscribe_then_unsubscribe_witness :
  let u := {| unsub_subscription := 1; unsub_queryId := "query-1" |} in
  let w1 := (on Demo.native Demo.stepCount Demo.callback (Some "count")
               Demo.busy_world).2 in
  fresh_keys Demo.busy_world
  ∧ on Demo.native Demo.stepCount Demo.callback (Some "count") Demo.busy_world
    = (Fulfilled u, w1)
  ∧ ∃ w2,
      unsubscribe Demo.native u w1 =
        (Normal (Native.stopObserving Demo.native (calls w1)
                   (unsub_queryId u)), w2) ∧
      subscriptions w2 = subscriptions Demo.busy_world ∧
      invocations w2 = invocations Demo.busy_world ∧
      ∀ eventType ev,
        invocations (emit strict_engine eventType ev w2)
        = invocations (emit strict_engine eventType ev Demo.busy_world).
Proof.
  intros u w1.
  assert (on Demo.native Demo.stepCount Demo.callback (Some "count")
            Demo.busy_world = (Fulfilled u, w1)) as Hon by reflexivity.
  split; [exact fresh_keys_busy_world |]. split; [exact Hon |].
  exact (subscribe_then_unsubscribe Demo.native strict_engine Demo.stepCount
           Demo.callback (Some "count") Demo.busy_world u w1
           fresh_keys_busy_world Hon).
Defined.

Lemma unsubscribe_leaves_the_others_witness :
  let u1 := {| unsub_subscription := 1; unsub_queryId := "query-1" |} in
  let u2 := {| unsub_subscription := 2; unsub_queryId := "query-1" |} in
  let w1 := (on Demo.native Demo.stepCount Demo.callback (Some "count")
               Demo.busy_world).2 in
  let w2 := (on Demo.native Demo.stepCount 8%nat (Some "count") w1).2 in
  let w3 := (unsubscribe Demo.native u1 w2).2 in
  fresh_keys Demo.busy_world
  ∧ on Demo.native Demo.stepCount Demo.callback (Some "count") Demo.busy_world
    = (Fulfilled u1, w1)
  ∧ on Demo.native Demo.stepCount 8%nat (Some "count") w1 = (Fulfilled u2, w2)
  ∧ invocations (emit strict_engine "onQueryUpdated" Demo.update w3)
    = [{| invoked := 8%nat;
          invoked_with := [deserializeSample strict_engine Demo.raw_sample] |}].
Proof.
  intros u1 u2 w1 w2 w3.
  assert (on Demo.native Demo.stepCount Demo.callback (Some "count")
            Demo.busy_world = (Fulfilled u1, w1)) as Hon1 by reflexivity.
  assert (on Demo.native Demo.stepCount 8%nat (Some "count") w1
          = (Fulfilled u2, w2)) as Hon2 by reflexivity.
  split_and!; [exact fresh_keys_busy_world | exact Hon1 | exact Hon2 |].
  destruct (unsubscribe_leaves_the_others Demo.native strict_engine
              Demo.stepCount Demo.callback (Some "count") Demo.stepCount 8%nat
              (Some "count") Demo.busy_world u1 w1 u2 w2
              fresh_keys_busy_world Hon1 Hon2) as (_ & _ & Hemit).
  exact (Hemit Demo.update).
Defined.

Lemma events_only_invoke_callbacks_witness :
  let u := {| unsub_subscription := 1; unsub_queryId := "query-1" |} in
  let w1 := (on Demo.native Demo.stepCount Demo.callback (Some "count")
               Demo.busy_world).2 in
  on Demo.native Demo.stepCount Demo.callback (Some "count") Demo.busy_world
    = (Fulfilled u, w1)
  ∧ "onWorkoutUpdated" ≠ "onQueryUpdated"
  ∧ calls (emit strict_engine "onQueryUpdated" Demo.update w1) = calls w1
  ∧ invocations (emit strict_engine "onWorkoutUpdated" Demo.update w1) = [].
Proof.
  intros u w1.
  assert (on Demo.native Demo.stepCount Demo.callback (Some "count")
            Demo.busy_world = (Fulfilled u, w1)) as Hon by reflexivity.
  assert ("onWorkoutUpdated" ≠ "onQueryUpdated") as Hother by compute_done.
  split_and!; [exact Hon | exact Hother | |].
  - destruct (events_only_invoke_callbacks Demo.native strict_engine
                "onQueryUpdated" Demo.update w1) as (Hcalls & _).
    exact Hcalls.
  - destruct (events_only_invoke_callbacks Demo.native strict_engine
                "onWorkoutUpdated" Demo.update w1) as (_ & _ & _ & _ & Hquiet).
    exact (Hquiet Demo.stepCount Demo.callback (Some "count") Demo.busy_world u
             Hon Hother).
Defined.

Lemma matching_events_in_order_witness :
  let u := {| unsub_subscription := 0; unsub_queryId := "query-1" |} in
  let w1 := (on Demo.native Demo.stepCount Demo.callback (Some "count")
               initial_world).2 in
  let delivered := {| invoked := Demo.callback;
                      invoked_with :=
                        [deserializeSample strict_engine Demo.raw_sample] |} in
  subscriptions initial_world = []
  ∧ on Demo.native Demo.stepCount Demo.callback (Some "count") initial_world
    = (Fulfilled u, w1)
  ∧ invocations
      (foldl (λ w ev, emit strict_engine "onQueryUpdated" ev w) w1
         [Demo.update; Demo.other_update; Demo.update])
    = [delivered; delivered].
Proof.
  intros u w1 delivered.
  assert (on Demo.native Demo.stepCount Demo.callback (Some "count")
            initial_world = (Fulfilled u, w1)) as Hon by reflexivity.
  split_and!; [reflexivity | exact Hon |].
  exact (matching_events_in_order Demo.native strict_engine Demo.stepCount
           Demo.callback (Some "count") initial_world u w1
           [Demo.update; Demo.other_update; Demo.update] eq_refl Hon).
Defined.
